(** * Access-management models: a verification development

    The Python package [app.models] declares the persistent records of an
    enterprise access-management system with SQLAlchemy: roles, permissions,
    role grants, hierarchy edges, sessions, MFA tokens and access requests.
    This file embeds the records and their computed properties
    ([Permission.full_name], [UserSession.is_active],
    [UserSession.is_expired], [MFAToken.is_valid]), the column defaults and
    the table constraints, and proves the properties the design document
    states about them.

    The services that consume the records (role resolver, permission
    aggregator, request workflow) live in packages the models do not
    contain; they are modelled from the design document and marked as such. *)

From Stdlib Require Import Ascii String.
From stdpp Require Import gmap strings list fin_maps relations.

Open Scope string_scope.
Open Scope nat_scope.

(** ** Column types shared by all models *)

(** [UUID(as_uuid=True)]: a 128-bit identifier. *)
Definition uuid := N.

(** An instant, counted in microseconds of UTC.  The instant of
    [datetime.utcnow()] is an input of every property that reads the
    clock. *)
Definition datetime := Z.

(** A Python [int].  The attribute holds any integer; an [Integer] column is
    a signed 32-bit column, see [Integer_fits]. *)
Definition integer := Z.

Bind Scope N_scope with uuid.
Bind Scope Z_scope with datetime integer.

(** [Integer]: the value is written by INSERT or UPDATE when it lies in the
    signed 32-bit range; outside it the statement is refused. *)
Definition Integer_fits (v : integer) : bool :=
  bool_decide (-2147483648 ≤ v ≤ 2147483647)%Z.

(** A Python [datetime] object as the attribute of a [DateTime(timezone=True)]
    column holds it: naive (without [tzinfo]), as [datetime.utcnow()] and
    arithmetic on it give it, or timezone-aware, as the column gives it when
    the row is loaded.  Both carry their instant in UTC. *)
Inductive DateTime :=
  | Naive (t : datetime)
  | Aware (t : datetime).

Global Instance DateTime_eq_dec : EqDecision DateTime.
Proof. solve_decision. Defined.

(** What evaluating a property gives: a value, or [TypeError]. *)
Inductive evaluated (A : Type) :=
  | Returns (a : A)
  | TypeError.
Arguments Returns {A} a.
Arguments TypeError {A}.

(** [a > b] and [a <= b] on [datetime] objects.  Two naive or two aware
    objects are ordered by their instants; ordering a naive against an aware
    one raises [TypeError] ("can't compare offset-naive and offset-aware
    datetimes"). *)
Definition datetime_gt (a b : DateTime) : evaluated bool :=
  match a, b with
  | Naive x, Naive y | Aware x, Aware y => Returns (bool_decide (x > y)%Z)
  | _, _ => TypeError
  end.

Definition datetime_le (a b : DateTime) : evaluated bool :=
  match a, b with
  | Naive x, Naive y | Aware x, Aware y => Returns (bool_decide (x ≤ y)%Z)
  | _, _ => TypeError
  end.

(** [datetime.utcnow()] at the instant [now]: a naive object. *)
Definition utcnow (now : datetime) : DateTime := Naive now.

(** A column declared with [default=d] receives [d] when the constructor is
    not given a value for it, and the given value otherwise. *)
Definition column_default {A} (d : A) (given : option A) : A :=
  match given with
  | Some v => v
  | None => d
  end.

(** Modelled from the spec: lazy expiry, shared by assignments and grants.
    A row whose "expiry is null or in the future" is current. *)
Definition not_expired (asOf : datetime) (expiry : option datetime) : bool :=
  match expiry with
  | None => true
  | Some e => bool_decide (asOf < e)%Z
  end.

(** [String(n)]: at most [n] characters. *)
Definition String_fits (n : nat) (s : string) : bool :=
  bool_decide (String.length s ≤ n)%nat.

(** A nullable [String(n)] column. *)
Definition String_fits_nullable (n : nat) (s : option string) : bool :=
  match s with
  | Some v => String_fits n v
  | None => true
  end.

(** Python truthiness of an optional string, as tested by [if self.scope:].
    NULL and the empty string are both false. *)
Definition truthy (s : option string) : bool :=
  match s with
  | None => false
  | Some "" => false
  | Some (String _ _) => true
  end.

(** [sep.join(parts)] *)
Fixpoint join (sep : string) (parts : list string) : string :=
  match parts with
  | [] => ""
  | [p] => p
  | p :: rest => p +:+ sep +:+ join sep rest
  end.

(** Number of occurrences of a character; a string has one more
    [c]-separated part than it has occurrences of [c]. *)
Fixpoint count_char (c : Ascii.ascii) (s : string) : nat :=
  match s with
  | "" => 0
  | String a s' => (if Ascii.eqb a c then 1 else 0) + count_char c s'
  end.

Definition separated_parts (c : Ascii.ascii) (s : string) : nat :=
  S (count_char c s).

(** ** Attribute conditions *)

Module Conditions.

Inductive attr_value :=
  | VStr (s : string)
  | VInt (z : Z).

Global Instance attr_value_eq_dec : EqDecision attr_value.
Proof. solve_decision. Defined.

(** Modelled from the spec: the contents of the JSON columns [conditions],
    whose format the models package leaves open.  "A small expression tree
    over context attributes supporting AND/OR/NOT and comparator leaves
    (equals, in-set, greater/less-than, prefix-match)." *)
Inductive condition :=
  | CAnd (c1 c2 : condition)
  | COr (c1 c2 : condition)
  | CNot (c : condition)
  | CEquals (attr : string) (v : attr_value)
  | CInSet (attr : string) (vs : list attr_value)
  | CGreater (attr : string) (bound : Z)
  | CLess (attr : string) (bound : Z)
  | CPrefix (attr : string) (p : string).

(** The request context: the evaluation instant and the attributes. *)
Record context := {
  timestamp : datetime;
  attributes : gmap string attr_value
}.

(** Modelled from the spec: the condition-evaluation primitive.  A leaf over
    a missing attribute, or over an attribute of the wrong kind, does not
    match. *)
Fixpoint eval (ctx : context) (c : condition) : bool :=
  match c with
  | CAnd c1 c2 => eval ctx c1 && eval ctx c2
  | COr c1 c2 => eval ctx c1 || eval ctx c2
  | CNot c' => negb (eval ctx c')
  | CEquals a v =>
      match attributes ctx !! a with
      | Some v' => bool_decide (v' = v)
      | None => false
      end
  | CInSet a vs =>
      match attributes ctx !! a with
      | Some v' => bool_decide (v' ∈ vs)
      | None => false
      end
  | CGreater a bound =>
      match attributes ctx !! a with
      | Some (VInt z) => bool_decide (bound < z)%Z
      | _ => false
      end
  | CLess a bound =>
      match attributes ctx !! a with
      | Some (VInt z) => bool_decide (z < bound)%Z
      | _ => false
      end
  | CPrefix a p =>
      match attributes ctx !! a with
      | Some (VStr s) => String.prefix p s
      | _ => false
      end
  end.

(** A [conditions] column holding the default [{}] carries no condition and
    matches every context. *)
Definition conditions_match (ctx : context) (c : option condition) : bool :=
  match c with
  | None => true
  | Some c' => eval ctx c'
  end.

End Conditions.

(** ** role.py *)

Module RoleModel.

Inductive PermissionType := RESOURCE | ACTION | DATA | SYSTEM.

(** [class Permission(Base)]: the columns that carry data of the permission
    itself (audit columns and relationships are left out). *)
Record Permission := {
  id : uuid;
  name : string;
  display_name : string;
  description : option string;
  permission_type : PermissionType;
  resource : string;
  action : string;
  scope : option string;
  is_active : bool;
  is_system_permission : bool
}.

(** The parts list built by [full_name] before joining. *)
Definition full_name_parts (p : Permission) : list string :=
  let parts := [resource p; action p] in
  if truthy (scope p)
  then parts ++ [default "" (scope p)]
  else parts.

(** [Permission.full_name] *)
Definition full_name (p : Permission) : string :=
  join ":" (full_name_parts p).

(** The column declarations of [Permission]: what a row must satisfy to be
    stored ([nullable=False] is carried by the field types). *)
Definition Permission_storable (p : Permission) : bool :=
  String_fits 100 (name p) &&
  String_fits 200 (display_name p) &&
  String_fits 100 (resource p) &&
  String_fits 50 (action p) &&
  String_fits_nullable 100 (scope p).

(** [Permission(...)]: the constructor stores its keyword arguments; columns
    with a default take it when the argument is missing. *)
Definition new_Permission (pid : uuid) (nm dn : string)
    (ty : option PermissionType) (res act : string) (sc : option string)
    (active system : option bool) : Permission :=
  {| id := pid; name := nm; display_name := dn; description := None;
     permission_type := column_default RESOURCE ty;
     resource := res; action := act; scope := sc;
     is_active := column_default true active;
     is_system_permission := column_default false system |}.

(** [class RolePermission(Base)]: a grant of a permission to a role.  The
    JSON column [conditions] holds [None] for its default [{}]. *)
Record RolePermission := {
  grant_id : uuid;
  role_id : uuid;
  permission_id : uuid;
  granted_at : datetime;
  granted_by : option uuid;
  expires_at : option datetime;
  grant_is_active : bool;
  conditions : option Conditions.condition
}.

(** [class RoleHierarchy(Base)]: an edge between two roles. *)
Record RoleHierarchy := {
  edge_id : uuid;
  parent_role_id : uuid;
  child_role_id : uuid;
  depth : integer;
  inherit_permissions : bool;
  inherit_conditions : bool
}.

(** The pair named by [UniqueConstraint("role_id", "permission_id",
    name="uq_role_permission")]. *)
Definition uq_role_permission (g : RolePermission) : uuid * uuid :=
  (role_id g, permission_id g).

(** The scope vocabulary named in the column comment. *)
Definition scope_vocabulary : list string :=
  ["own"; "department"; "organization"; "all"].

Definition scope_in_vocabulary (p : Permission) : Prop :=
  match scope p with
  | None => True
  | Some s => s ∈ scope_vocabulary
  end.

(** Sample rows. *)
Definition report_read_empty : Permission :=
  new_Permission 1%N "report.read" "Read reports" None "report" "read"
                 (Some "") None None.

Definition report_read_team : Permission :=
  new_Permission 2%N "report.read.team" "Read team reports" None
                 "report" "read" (Some "team") None None.

End RoleModel.

(** ** user.py *)

Module UserModel.

(** [class UserRole(Base)]: the assignment of a role to a user. *)
Record UserRole := {
  assignment_id : uuid;
  user_id : uuid;
  role_id : uuid;
  assigned_at : datetime;
  assigned_by : option uuid;
  expires_at : option datetime;
  is_active : bool
}.

End UserModel.

(** ** session.py *)

Module SessionModel.

Inductive SessionStatus := ACTIVE | EXPIRED | TERMINATED | REVOKED.

Global Instance SessionStatus_eq_dec : EqDecision SessionStatus.
Proof. solve_decision. Defined.

(** [class UserSession(Base)] *)
Record UserSession := {
  id : uuid;
  user_id : uuid;
  session_token : string;
  status : SessionStatus;
  device_fingerprint : option string;
  created_at : datetime;
  last_activity : datetime;
  expires_at : DateTime;
  terminated_at : option datetime;
  is_suspicious : bool;
  risk_score : integer;
  mfa_verified : bool;
  login_method : option string
}.

(** The object [UserSession(...)] once the session has flushed it.  The
    constructor only keeps the keyword arguments it is given; the INSERT,
    at the instant [now], gives every other column its default, and the
    object then holds it: [ACTIVE], [False], [0] and [False] for [status],
    [is_suspicious], [risk_score] and [mfa_verified], [func.now()] for the
    two timestamps.  [expires_at] stays the object the caller gave. *)
Definition new_UserSession (now : datetime) (sid uid : uuid)
    (token : string) (expires : DateTime) (st : option SessionStatus)
    (suspicious : option bool) (risk : option integer)
    (mfa : option bool) : UserSession :=
  {| id := sid; user_id := uid; session_token := token;
     status := column_default ACTIVE st;
     device_fingerprint := None;
     created_at := now; last_activity := now;
     expires_at := expires; terminated_at := None;
     is_suspicious := column_default false suspicious;
     risk_score := column_default 0%Z risk;
     mfa_verified := column_default false mfa;
     login_method := None |}.

(** [session.risk_score = v] *)
Definition set_risk_score (v : integer) (s : UserSession) : UserSession :=
  {| id := id s; user_id := user_id s; session_token := session_token s;
     status := status s; device_fingerprint := device_fingerprint s;
     created_at := created_at s; last_activity := last_activity s;
     expires_at := expires_at s; terminated_at := terminated_at s;
     is_suspicious := is_suspicious s;
     risk_score := v;
     mfa_verified := mfa_verified s; login_method := login_method s |}.

(** [UserSession.is_active], with [now] the instant of
    [datetime.utcnow()].  [and] evaluates from left to right and stops at
    the first false operand, so the comparison is made only for a session
    whose status is [ACTIVE]. *)
Definition is_active (s : UserSession) (now : datetime)
    : evaluated bool :=
  if bool_decide (status s = ACTIVE) then
    match datetime_gt (expires_at s) (utcnow now) with
    | Returns true => Returns (bool_decide (terminated_at s = None))
    | Returns false => Returns false
    | TypeError => TypeError
    end
  else Returns false.

(** [UserSession.is_expired], with [now] the instant of
    [datetime.utcnow()].  The comparison is the left operand of [or] and is
    always made. *)
Definition is_expired (s : UserSession) (now : datetime)
    : evaluated bool :=
  match datetime_le (expires_at s) (utcnow now) with
  | Returns true => Returns true
  | Returns false => Returns (bool_decide (status s = EXPIRED))
  | TypeError => TypeError
  end.

(** The row of a session can be written: its [Integer] and [String]
    columns fit. *)
Definition UserSession_storable (s : UserSession) : bool :=
  Integer_fits (risk_score s) && String_fits 255 (session_token s) &&
  String_fits_nullable 255 (device_fingerprint s) &&
  String_fits_nullable 50 (login_method s).

(** [class SessionActivity(Base)]: the security columns. *)
Record SessionActivity := {
  activity_session_id : uuid;
  activity_type : string;
  timestamp : datetime;
  activity_risk_score : integer;
  anomaly_detected : bool
}.

Definition new_SessionActivity (now : datetime) (sid : uuid) (ty : string)
    (risk : option integer) (anomaly : option bool) : SessionActivity :=
  {| activity_session_id := sid; activity_type := ty; timestamp := now;
     activity_risk_score := column_default 0%Z risk;
     anomaly_detected := column_default false anomaly |}.

(** [class DeviceInfo(Base)]: the trust columns. *)
Record DeviceInfo := {
  device_user_id : uuid;
  fingerprint : string;
  is_trusted : bool;
  trust_score : integer;
  login_count : integer;
  is_blocked : bool
}.

Definition new_DeviceInfo (uid : uuid) (fp : string) (trusted : option bool)
    (trust : option integer) : DeviceInfo :=
  {| device_user_id := uid; fingerprint := fp;
     is_trusted := column_default false trusted;
     trust_score := column_default 0%Z trust;
     login_count := 0; is_blocked := false |}.

(** [device.trust_score = v] *)
Definition set_trust_score (v : integer) (d : DeviceInfo) : DeviceInfo :=
  {| device_user_id := device_user_id d; fingerprint := fingerprint d;
     is_trusted := is_trusted d; trust_score := v;
     login_count := login_count d; is_blocked := is_blocked d |}.

(** The row of a device can be written. *)
Definition DeviceInfo_storable (d : DeviceInfo) : bool :=
  Integer_fits (trust_score d) && Integer_fits (login_count d) &&
  String_fits 255 (fingerprint d).

(** The range written next to both score columns: [# 0-100]. *)
Definition in_score_range (v : integer) : Prop := (0 ≤ v ≤ 100)%Z.

(** A session created with nothing but the mandatory columns: no risk
    signal has been recorded for it.  It expires eight hours after
    [datetime.utcnow()]. *)
Definition fresh_session (now : datetime) : UserSession :=
  new_UserSession now 7%N 1%N "tok" (Naive (now + 28800000000)%Z)
                  None None None None.

(** The same session as it is loaded from its row: the column gives the
    expiry as an aware object. *)
Definition loaded_session (now : datetime) : UserSession :=
  new_UserSession now 7%N 1%N "tok" (Aware (now + 28800000000)%Z)
                  None None None None.

End SessionModel.

(** ** Session trust monitor *)

Module TrustMonitor.
Import SessionModel.

(** Modelled from the spec: the trust monitor is not part of the models
    package.  Its score is a "weighted sum of independent boolean/continuous
    signals, clipped to [0,100]". *)
Definition clip (v : integer) : integer := Z.max 0 (Z.min 100 v).

(** One observation with the weight the configuration gives it. *)
Record signal := {
  weight : integer;
  value : integer
}.

Definition weighted_sum (signals : list signal) : integer :=
  foldr (λ sg acc, weight sg * value sg + acc)%Z 0%Z signals.

(** Modelled from the spec: "failure to compute (missing signal source)
    yields a conservative default of high risk". *)
Definition high_risk_default : integer := 100.

(** Modelled from the spec: [score(sessionContext)]; the signal source is
    [None] when it is not available. *)
Definition score (source : option (list signal)) : integer :=
  match source with
  | None => high_risk_default
  | Some signals => clip (weighted_sum signals)
  end.

(** Modelled from the spec: [record(sessionId, signal)] accumulates a new
    observation into the stored score. *)
Definition record (sg : signal) (s : UserSession) : UserSession :=
  set_risk_score (clip (risk_score s + weight sg * value sg)) s.

(** Modelled from the spec: the step-up trigger of the decision coordinator.
    "If [risk_score >= threshold], outcome is [RequireStepUp], not
    [Allow]." *)
Definition step_up_required (threshold risk : integer) : bool :=
  bool_decide (threshold ≤ risk)%Z.

End TrustMonitor.

(** ** mfa.py *)

Module MFAModel.

Inductive MFATokenType := VERIFICATION | AUTHENTICATION | RECOVERY.

Inductive MFATokenStatus := PENDING | USED | EXPIRED | REVOKED.

Global Instance MFATokenStatus_eq_dec : EqDecision MFATokenStatus.
Proof. solve_decision. Defined.

(** [class MFAToken(Base)] *)
Record MFAToken := {
  id : uuid;
  user_id : uuid;
  device_id : option uuid;
  token_type : MFATokenType;
  token_value : string;
  token_hash : string;
  status : MFATokenStatus;
  created_at : datetime;
  expires_at : DateTime;
  used_at : option datetime;
  attempts : integer;
  max_attempts : integer
}.

(** [MFAToken.is_valid], with [now] the instant of [datetime.utcnow()].
    [and] evaluates from left to right and stops at the first false operand,
    so the comparison of [expires_at] is made only for a token whose status
    is [PENDING]. *)
Definition is_valid (t : MFAToken) (now : datetime) : evaluated bool :=
  if bool_decide (status t = PENDING) then
    match datetime_gt (expires_at t) (utcnow now) with
    | Returns true => Returns (bool_decide (attempts t < max_attempts t)%Z)
    | Returns false => Returns false
    | TypeError => TypeError
    end
  else Returns false.

(** The same token with another status, as an UPDATE of the column. *)
Definition with_status (st : MFATokenStatus) (t : MFAToken) : MFAToken :=
  {| id := id t; user_id := user_id t; device_id := device_id t;
     token_type := token_type t; token_value := token_value t;
     token_hash := token_hash t; status := st;
     created_at := created_at t; expires_at := expires_at t;
     used_at := used_at t; attempts := attempts t;
     max_attempts := max_attempts t |}.

(** A sample token, five minutes from its expiry, as the code that issues
    it holds it: the expiry was computed from [datetime.utcnow()]. *)
Definition login_token : MFAToken :=
  {| id := 11%N; user_id := 1%N; device_id := None;
     token_type := AUTHENTICATION; token_value := "493817";
     token_hash := "h"; status := PENDING; created_at := 0%Z;
     expires_at := Naive 300000000%Z; used_at := None;
     attempts := 0%Z; max_attempts := 3%Z |}.

(** The same token after three failed attempts. *)
Definition exhausted_token : MFAToken :=
  {| id := 11%N; user_id := 1%N; device_id := None;
     token_type := AUTHENTICATION; token_value := "493817";
     token_hash := "h"; status := PENDING; created_at := 0%Z;
     expires_at := Naive 300000000%Z; used_at := None;
     attempts := 3%Z; max_attempts := 3%Z |}.

(** The sample token as it is loaded from its row: the column gives the
    expiry as an aware object. *)
Definition loaded_token : MFAToken :=
  {| id := 11%N; user_id := 1%N; device_id := None;
     token_type := AUTHENTICATION; token_value := "493817";
     token_hash := "h"; status := PENDING; created_at := 0%Z;
     expires_at := Aware 300000000%Z; used_at := None;
     attempts := 0%Z; max_attempts := 3%Z |}.

End MFAModel.

(** ** policy.py *)

Module PolicyModel.

Inductive AccessRequestStatus := PENDING | APPROVED | REJECTED | EXPIRED | REVOKED.

(** Modelled from the spec: one entry of the JSON column
    [approval_workflow], whose format the models package leaves open.  "Each
    step names an approver"; the step also records when the approver
    approved. *)
Record approval_step := {
  approver : uuid;
  approved_on : option datetime
}.

(** [class AccessRequest(Base)]: the columns of the approval workflow. *)
Record AccessRequest := {
  id : uuid;
  request_number : string;
  requester_id : uuid;
  requested_for_id : option uuid;
  status : AccessRequestStatus;
  current_approver_id : option uuid;
  approval_workflow : list approval_step;
  requested_at : datetime;
  required_by : option datetime;
  approved_at : option datetime;
  rejected_at : option datetime;
  expires_at : option datetime;
  approved_by : option uuid;
  rejected_by : option uuid;
  decision_reason : option string;
  implemented : bool;
  implemented_at : option datetime;
  implemented_by : option uuid
}.

End PolicyModel.

(** ** The [role_permissions] table and its constraints *)

Module RolePermissionTable.
Import RoleModel.

(** The table is a bag of rows; the order of the list carries no meaning. *)
Definition table := list RolePermission.

Inductive db_result :=
  | Done (t : table)
  | IntegrityError.

(** A new row conflicts with the table when a stored row has its primary key
    or its (role_id, permission_id) pair.  Both columns of the pair are
    [nullable=False], so no NULL escapes the comparison. *)
Definition conflicts (g : RolePermission) (t : table) : bool :=
  bool_decide (grant_id g ∈ grant_id <$> t) ||
  bool_decide (uq_role_permission g ∈ uq_role_permission <$> t).

(** [session.add(g)] followed by a flush: INSERT. *)
Definition insert (g : RolePermission) (t : table) : db_result :=
  if conflicts g t then IntegrityError else Done (g :: t).

(** DELETE of the row with the given primary key. *)
Definition delete (gid : uuid) (t : table) : table :=
  filter (λ g, grant_id g ≠ gid) t.

(** UPDATE of the row with the given primary key to new column values; the
    constraints are checked against the other rows. *)
Definition update (gid : uuid) (g' : RolePermission) (t : table)
    : db_result :=
  if bool_decide (gid ∈ grant_id <$> t)
  then insert g' (delete gid t)
  else Done t.

Inductive statement :=
  | INSERT (g : RolePermission)
  | DELETE (gid : uuid)
  | UPDATE (gid : uuid) (g' : RolePermission).

(** A statement that violates a constraint is rolled back and leaves the
    table as it was. *)
Definition execute (t : table) (st : statement) : table :=
  match st with
  | INSERT g => match insert g t with Done t' => t' | IntegrityError => t end
  | DELETE gid => delete gid t
  | UPDATE gid g' =>
      match update gid g' t with Done t' => t' | IntegrityError => t end
  end.

(** The database states reachable from the empty table. *)
Definition run (sts : list statement) : table := foldl execute [] sts.

(** Number of grant rows of a role for a permission. *)
Definition grant_rows (r p : uuid) (t : table) : nat :=
  length (filter (λ g, uq_role_permission g = (r, p)) t).

(** Both constraints of the table, as a property of its rows. *)
Definition constraints_hold (t : table) : Prop :=
  NoDup (grant_id <$> t) ∧ NoDup (uq_role_permission <$> t).

(** A sample row. *)
Definition grant (gid r p : uuid) : RolePermission :=
  {| grant_id := gid; role_id := r; permission_id := p; granted_at := 0;
     granted_by := None; expires_at := None; grant_is_active := true;
     conditions := None |}.

End RolePermissionTable.

(** ** Role graph resolver *)

Module Resolver.
Import RoleModel.

Inductive resolve_error :=
  | RoleCycleDetected
  | TraversalBudgetExceeded.

Inductive outcome (A : Type) :=
  | Ok (a : A)
  | Err (e : resolve_error).
Arguments Ok {A} a.
Arguments Err {A} e.

(** Left-to-right iteration that stops at the first failure. *)
Fixpoint for_each {A B} (f : B → A → outcome B) (l : list A) (b : B)
    : outcome B :=
  match l with
  | [] => Ok b
  | x :: l' =>
      match f b x with
      | Ok b' => for_each f l' b'
      | Err e => Err e
      end
  end.

Section traversal.
Variable edges : list RoleHierarchy.

(** Modelled from the spec: the resolver is not part of the models
    package.  "Traverse HierarchyEdges outward from each directly held
    role, following only edges where [inherit_permissions=true]": the
    edges leaving a role are those that name it as [parent_role_id]. *)
Definition successors (r : uuid) : list uuid :=
  child_role_id <$>
    filter (λ e, parent_role_id e = r ∧ inherit_permissions e = true) edges.

(** Modelled from the spec: depth-first traversal "accumulating reachable
    roles with a visited-set guard.  If traversal revisits a role already
    on the current path, fail with [RoleCycleDetected]."  [path] holds the
    roles being explored, [visited] the roles whose exploration is
    complete.  The traversal carries a budget of nested calls so that it is
    a total function; [resolve] provides a budget that is never used up. *)
Fixpoint visit (budget : nat) (path visited : gset uuid) (r : uuid)
    : outcome (gset uuid) :=
  match budget with
  | 0 => Err TraversalBudgetExceeded
  | S budget' =>
      if decide (r ∈ path) then Err RoleCycleDetected
      else if decide (r ∈ visited) then Ok visited
      else
        match for_each (visit budget' ({[r]} ∪ path)) (successors r)
                       visited with
        | Ok visited' => Ok ({[r]} ∪ visited')
        | Err e => Err e
        end
  end.

(** Every role the traversal can meet from the given roots. *)
Definition role_universe (roots : list uuid) : gset uuid :=
  list_to_set roots ∪ list_to_set (child_role_id <$> edges).

Definition resolve_from (roots : list uuid) : outcome (gset uuid) :=
  for_each (visit (S (size (role_universe roots))) ∅) roots ∅.

(** The inheritance relation followed by the traversal. *)
Definition inherits (r s : uuid) : Prop := s ∈ successors r.

(** What holds of the set of completely explored roles: it is closed under
    inheritance, no role in it lies on a cycle, and it is disjoint from the
    path under exploration. *)
Record explored (path visited : gset uuid) : Prop := {
  explored_closed :
    ∀ u s, u ∈ visited → inherits u s → s ∈ visited;
  explored_acyclic : ∀ u, u ∈ visited → ¬ tc inherits u u;
  explored_off_path : path ## visited
}.

(** What a traversal step guarantees when it returns a role set. *)
Definition visit_spec (f : gset uuid → uuid → outcome (gset uuid))
    (path : gset uuid) : Prop :=
  ∀ visited r visited',
    explored path visited → f visited r = Ok visited' →
    explored path visited' ∧ visited ⊆ visited' ∧ r ∈ visited'.
End traversal.

(** Modelled from the spec: "start from active, non-expired
    UserRoleAssignments for [userId]". *)
Definition direct_roles (assignments : list UserModel.UserRole)
    (userId : uuid) (asOf : datetime) : list uuid :=
  UserModel.role_id <$>
    filter (λ a, UserModel.user_id a = userId ∧
                 UserModel.is_active a = true ∧
                 not_expired asOf (UserModel.expires_at a) = true)
           assignments.

(** Modelled from the spec: [resolve(userId, asOf) -> set<RoleId>]. *)
Definition resolve (assignments : list UserModel.UserRole)
    (edges : list RoleHierarchy) (userId : uuid) (asOf : datetime)
    : outcome (gset uuid) :=
  resolve_from edges (direct_roles assignments userId asOf).

(** Sample rows. *)
Definition holds (aid uid rid : uuid) : UserModel.UserRole :=
  {| UserModel.assignment_id := aid; UserModel.user_id := uid;
     UserModel.role_id := rid; UserModel.assigned_at := 0;
     UserModel.assigned_by := None; UserModel.expires_at := None;
     UserModel.is_active := true |}.

Definition edge (eid parent child : uuid) (inherit : bool) : RoleHierarchy :=
  {| edge_id := eid; parent_role_id := parent; child_role_id := child;
     depth := 1; inherit_permissions := inherit;
     inherit_conditions := false |}.

(** Role 1 leads to roles 2 and 3, which inherit from each other. *)
Definition inheriting_cycle : list RoleHierarchy :=
  [edge 1 1 2 true; edge 2 2 3 true; edge 3 3 2 true].

End Resolver.

(** ** Permission aggregator *)

Module Aggregator.
Import RoleModel Conditions.

(** The data the aggregator reads. *)
Record snapshot := {
  permissions : list Permission;
  role_permissions : list RolePermission
}.

(** Queries thread the snapshot, so that what a query leaves behind can be
    compared with what it was given. *)
Definition query (A : Type) : Type := snapshot → A * snapshot.

Global Instance query_ret : MRet query := λ A a s, (a, s).
Global Instance query_bind : MBind query :=
  λ A B k m s, let '(a, s') := m s in k a s'.

Definition list_grants : query (list RolePermission) :=
  λ s, (role_permissions s, s).

Definition get_permission (pid : uuid) : query (option Permission) :=
  λ s, (find (λ p, bool_decide (id p = pid)) (permissions s), s).

(** Modelled from the spec: "for every role in [roleSet], collect active
    RoleGrants whose expiry is null or in the future; if a grant carries
    conditions, evaluate them against [context]". *)
Definition grant_applies (roleSet : gset uuid) (ctx : context)
    (g : RolePermission) : bool :=
  bool_decide (role_id g ∈ roleSet) &&
  grant_is_active g &&
  not_expired (timestamp ctx) (expires_at g) &&
  conditions_match ctx (conditions g).

(** Modelled from the spec: "permissions combine via union [...]  Output:
    deduplicated permission set keyed by canonical name." *)
Fixpoint collect (gs : list RolePermission) (acc : gmap string Permission)
    : query (gmap string Permission) :=
  match gs with
  | [] => mret acc
  | g :: gs' =>
      p ← get_permission (permission_id g);
      collect gs' match p with
                  | Some p' => <[full_name p' := p']> acc
                  | None => acc
                  end
  end.

(** Modelled from the spec: [aggregate(roleSet, context) -> set<Permission>];
    the aggregator is not part of the models package. *)
Definition aggregate (roleSet : gset uuid) (ctx : context)
    : query (gmap string Permission) :=
  gs ← list_grants;
  collect (filter (λ g, grant_applies roleSet ctx g = true) gs) ∅.

(** Sample rows. *)
Definition report_read_own : Permission :=
  new_Permission 20 "report.read.own" "Read own reports" None
                 "report" "read" (Some "own") None None.

Definition report_export : Permission :=
  new_Permission 21 "report.export" "Export reports" None
                 "report" "export" None None None.

Definition grant_until (gid r p : uuid) (exp : option datetime)
    : RolePermission :=
  {| grant_id := gid; role_id := r; permission_id := p; granted_at := 0;
     granted_by := None; expires_at := exp; grant_is_active := true;
     conditions := None |}.

Definition at_time (t : datetime) : context :=
  {| timestamp := t; attributes := ∅ |}.

Definition analyst_snapshot : snapshot :=
  {| permissions := [report_read_own; report_export];
     role_permissions := [grant_until 1 10 20 None;
                          grant_until 2 10 21 (Some 500%Z)] |}.

End Aggregator.

(** ** Access request workflow *)

Module Workflow.
Import PolicyModel.

(** The states of the workflow.  The status column has no value for an
    implemented request: it is an approved request whose [implemented] flag
    is set. *)
Inductive workflow_state :=
  | Pending | Approved | Rejected | Expired | Revoked | Implemented.

Definition state_of (r : AccessRequest) : workflow_state :=
  match status r with
  | PENDING => Pending
  | APPROVED => if implemented r then Implemented else Approved
  | REJECTED => Rejected
  | EXPIRED => Expired
  | REVOKED => Revoked
  end.

Definition terminal (s : workflow_state) : bool :=
  match s with
  | Rejected | Implemented | Expired | Revoked => true
  | Pending | Approved => false
  end.

(** Modelled from the spec: "[Pending → Approved → Implemented] (terminal),
    [Pending → Rejected] (terminal), [Pending → Expired] (terminal,
    time-triggered), [Approved → Revoked] (terminal)." *)
Definition valid_transition (from to : workflow_state) : bool :=
  match from, to with
  | Pending, Approved | Pending, Rejected | Pending, Expired
  | Approved, Revoked | Approved, Implemented => true
  | _, _ => false
  end.

Inductive operation :=
  | Approve (approverId : uuid)
  | Reject (approverId : uuid) (reason : string)
  | Implement (implementerId : uuid)
  | Expire
  | Revoke.

Inductive workflow_error := WorkflowInvalidTransition.

Inductive outcome :=
  | Updated (r : AccessRequest)
  | Failed (e : workflow_error).

(** Records the approval of the first open step. *)
Fixpoint record_approval (now : datetime) (steps : list approval_step)
    : list approval_step :=
  match steps with
  | [] => []
  | st :: rest =>
      match approved_on st with
      | None => {| approver := approver st; approved_on := Some now |} :: rest
      | Some _ => st :: record_approval now rest
      end
  end.

(** The approver of the first open step, if a step is open. *)
Definition next_approver (steps : list approval_step) : option uuid :=
  approver <$> find (λ st, bool_decide (approved_on st = None)) steps.

(** "Is this request overdue": [required_by] or [expires_at] has passed. *)
Definition overdue (now : datetime) (r : AccessRequest) : bool :=
  negb (not_expired now (required_by r)) ||
  negb (not_expired now (expires_at r)).

Definition approve_step (now : datetime) (a : uuid) (r : AccessRequest)
    : AccessRequest :=
  let steps := record_approval now (approval_workflow r) in
  let next := next_approver steps in
  {| id := id r; request_number := request_number r;
     requester_id := requester_id r; requested_for_id := requested_for_id r;
     status := if next is Some _ then PENDING else APPROVED;
     current_approver_id := next;
     approval_workflow := steps;
     requested_at := requested_at r; required_by := required_by r;
     approved_at := if next is Some _ then approved_at r else Some now;
     rejected_at := rejected_at r; expires_at := expires_at r;
     approved_by := if next is Some _ then approved_by r else Some a;
     rejected_by := rejected_by r; decision_reason := decision_reason r;
     implemented := implemented r; implemented_at := implemented_at r;
     implemented_by := implemented_by r |}.

Definition reject_request (now : datetime) (a : uuid) (reason : string)
    (r : AccessRequest) : AccessRequest :=
  {| id := id r; request_number := request_number r;
     requester_id := requester_id r; requested_for_id := requested_for_id r;
     status := REJECTED; current_approver_id := None;
     approval_workflow := approval_workflow r;
     requested_at := requested_at r; required_by := required_by r;
     approved_at := approved_at r; rejected_at := Some now;
     expires_at := expires_at r; approved_by := approved_by r;
     rejected_by := Some a; decision_reason := Some reason;
     implemented := implemented r; implemented_at := implemented_at r;
     implemented_by := implemented_by r |}.

Definition close_request (st : AccessRequestStatus) (r : AccessRequest)
    : AccessRequest :=
  {| id := id r; request_number := request_number r;
     requester_id := requester_id r; requested_for_id := requested_for_id r;
     status := st; current_approver_id := None;
     approval_workflow := approval_workflow r;
     requested_at := requested_at r; required_by := required_by r;
     approved_at := approved_at r; rejected_at := rejected_at r;
     expires_at := expires_at r; approved_by := approved_by r;
     rejected_by := rejected_by r; decision_reason := decision_reason r;
     implemented := implemented r; implemented_at := implemented_at r;
     implemented_by := implemented_by r |}.

Definition implement_request (now : datetime) (i : uuid) (r : AccessRequest)
    : AccessRequest :=
  {| id := id r; request_number := request_number r;
     requester_id := requester_id r; requested_for_id := requested_for_id r;
     status := status r; current_approver_id := current_approver_id r;
     approval_workflow := approval_workflow r;
     requested_at := requested_at r; required_by := required_by r;
     approved_at := approved_at r; rejected_at := rejected_at r;
     expires_at := expires_at r; approved_by := approved_by r;
     rejected_by := rejected_by r; decision_reason := decision_reason r;
     implemented := true; implemented_at := Some now;
     implemented_by := Some i |}.

(** Modelled from the spec: the transition operation of the workflow, which
    is not part of the models package.  Approval and rejection are accepted
    from the approver the pointer names; "any rejection at any step
    immediately moves the whole request to [Rejected]"; "reaching the final
    step's approval moves the request to [Approved]"; the sweep expires a
    pending request that is overdue; everything else is an invalid
    transition. *)
Definition transition (now : datetime) (op : operation) (r : AccessRequest)
    : outcome :=
  match state_of r, op with
  | Pending, Approve a =>
      if bool_decide (current_approver_id r = Some a)
      then Updated (approve_step now a r)
      else Failed WorkflowInvalidTransition
  | Pending, Reject a reason =>
      if bool_decide (current_approver_id r = Some a)
      then Updated (reject_request now a reason r)
      else Failed WorkflowInvalidTransition
  | Pending, Expire =>
      if overdue now r
      then Updated (close_request EXPIRED r)
      else Failed WorkflowInvalidTransition
  | Approved, Revoke => Updated (close_request REVOKED r)
  | Approved, Implement i => Updated (implement_request now i r)
  | _, _ => Failed WorkflowInvalidTransition
  end.

(** The invariant of the data model: "[implemented=true] is reachable only
    from [approved]". *)
Definition consistent (r : AccessRequest) : Prop :=
  status r = APPROVED ∨ implemented r = false.

(** The request as it stands after the call, and the error raised if any: a
    failed call leaves the stored request as it was. *)
Definition apply_operation (now : datetime) (op : operation)
    (r : AccessRequest) : AccessRequest * option workflow_error :=
  match transition now op r with
  | Updated r' => (r', None)
  | Failed e => (r, Some e)
  end.

(** A request with two approval steps, waiting for the first approver. *)
Definition two_step_request : AccessRequest :=
  {| id := 1; request_number := "AR-0001"; requester_id := 100;
     requested_for_id := None; status := PENDING;
     current_approver_id := Some 201%N;
     approval_workflow := [ {| approver := 201; approved_on := None |};
                            {| approver := 202; approved_on := None |} ];
     requested_at := 0; required_by := None; approved_at := None;
     rejected_at := None; expires_at := Some 1000%Z; approved_by := None;
     rejected_by := None; decision_reason := None; implemented := false;
     implemented_at := None; implemented_by := None |}.

Definition after (ops : list (datetime * operation)) (r : AccessRequest)
    : AccessRequest :=
  foldl (λ r' '(now, op), (apply_operation now op r').1) r ops.

Definition rejected_request : AccessRequest :=
  after [(10%Z, Approve 201); (20%Z, Reject 202 "no need")] two_step_request.

End Workflow.

(** ** config.py *)

Module ConfigModel.

(** [class Settings(BaseSettings)]: the fields that the validators, the
    properties and the application set-up read.  A string is the sequence of
    its characters. *)
Record Settings := {
  app_version : string;
  environment : string;
  log_level : string;
  host : string;
  port : integer;
  workers : integer;
  database_url : string;
  redis_url : string;
  secret_key : string;
  jwt_algorithm : string;
  cors_origins : list string;
  cors_credentials : bool;
  cors_methods : list string;
  cors_headers : list string;
  prometheus_enabled : bool;
  api_title : string;
  api_description : string;
  api_version : string;
  api_docs_url : string;
  api_redoc_url : string
}.

(** What a validator does with a value: return it or raise [ValueError]. *)
Inductive validated :=
  | Valid (v : string)
  | ValueError (msg : string).

(** [Settings.validate_environment] *)
Definition validate_environment (v : string) : validated :=
  if bool_decide (v ∉ ["development"; "staging"; "production"])
  then ValueError "Environment must be development, staging, or production"
  else Valid v.

(** [Settings.validate_log_level] *)
Definition validate_log_level (v : string) : validated :=
  if bool_decide (v ∉ ["DEBUG"; "INFO"; "WARNING"; "ERROR"; "CRITICAL"])
  then ValueError
         "Log level must be DEBUG, INFO, WARNING, ERROR, or CRITICAL"
  else Valid v.

(** [Settings.validate_jwt_algorithm] *)
Definition validate_jwt_algorithm (v : string) : validated :=
  if bool_decide
       (v ∉ ["HS256"; "HS384"; "HS512"; "RS256"; "RS384"; "RS512"])
  then ValueError "Invalid JWT algorithm"
  else Valid v.

(** [Settings.validate_secret_key] *)
Definition validate_secret_key (v : string) : validated :=
  if bool_decide (String.length v < 32)
  then ValueError "Secret key must be at least 32 characters long"
  else Valid v.

(** [Settings.is_development] *)
Definition is_development (s : Settings) : bool :=
  bool_decide (environment s = "development").

(** [Settings.is_production] *)
Definition is_production (s : Settings) : bool :=
  bool_decide (environment s = "production").

(** [Settings.is_staging] *)
Definition is_staging (s : Settings) : bool :=
  bool_decide (environment s = "staging").

(** Settings of a production deployment, for examples. *)
Definition production_settings : Settings :=
  {| app_version := "1.0.0"; environment := "production";
     log_level := "INFO"; host := "0.0.0.0"; port := 8000; workers := 4;
     database_url := "postgresql://elams:pw@db:5432/elams";
     redis_url := "redis://cache:6379/0";
     secret_key := "0123456789abcdef0123456789abcdef";
     jwt_algorithm := "RS256";
     cors_origins := ["http://localhost:4200"; "http://localhost:8080"];
     cors_credentials := true;
     cors_methods := ["GET"; "POST"; "PUT"; "DELETE"; "OPTIONS"];
     cors_headers := ["*"]; prometheus_enabled := true;
     api_title := "ELAMS API";
     api_description := "Enterprise Logical Access Management System API";
     api_version := "1.0.0"; api_docs_url := "/docs";
     api_redoc_url := "/redoc" |}.

End ConfigModel.

(** ** user.py: profiles *)

Module UserProfileModel.

(** [class UserProfile(Base)]: the personal-information columns. *)
Record UserProfile := {
  user_id : uuid;
  first_name : option string;
  last_name : option string;
  middle_name : option string;
  display_name : option string;
  title : option string;
  employee_id : option string
}.

(** [name for name in names if name] *)
Definition present_names (names : list (option string)) : list string :=
  default "" <$> filter (λ n, truthy n = true) names.

(** [UserProfile.full_name] *)
Definition full_name (p : UserProfile) : string :=
  let names := [first_name p; middle_name p; last_name p] in
  join " " (present_names names).

(** [s.split(sep)] for a separator of one character: the pieces between the
    occurrences of [sep], empty pieces included, so that a leading, a
    trailing and a doubled separator each give an empty piece. *)
Fixpoint split_on (sep : Ascii.ascii) (s : string) : list string :=
  match s with
  | "" => [""]
  | String c s' =>
      if Ascii.eqb c sep then "" :: split_on sep s'
      else
        match split_on sep s' with
        | piece :: pieces => String c piece :: pieces
        | [] => [String c ""]
        end
  end.

(** A string without leading, trailing or doubled space: none of its pieces
    is empty. *)
Definition well_spaced (s : string) : Prop := "" ∉ split_on " " s.

(** The profile row that [create_admin] builds. *)
Definition admin_profile (uid : uuid) : UserProfile :=
  {| user_id := uid; first_name := Some "System"; middle_name := None;
     last_name := Some "Administrator";
     display_name := Some "System Administrator";
     title := Some "System Administrator";
     employee_id := Some "ADMIN001" |}.

End UserProfileModel.

(** ** mfa.py: token creation *)

Module MFATokenCreation.
Import MFAModel.


End MFATokenCreation.

(** ** The [permissions] table and its constraints *)

Module PermissionTable.
Import RoleModel.

(** The table is a bag of rows. *)
Definition table := list Permission.

(** [UniqueConstraint("resource", "action", "scope",
    name="uq_permission_ras")]: two rows conflict when the three columns are
    equal; a NULL scope is equal to nothing, not even to another NULL. *)
Definition ras_conflict (p q : Permission) : bool :=
  bool_decide (resource p = resource q) &&
  bool_decide (action p = action q) &&
  match scope p, scope q with
  | Some s, Some s' => bool_decide (s = s')
  | _, _ => false
  end.

(** A new row conflicts with the table on its primary key, on the unique
    column [name] or on [uq_permission_ras]. *)
Definition conflicts (p : Permission) (t : table) : bool :=
  existsb (λ q, bool_decide (id p = id q) || bool_decide (name p = name q)
                || ras_conflict p q) t.

Inductive db_result :=
  | Done (t : table)
  | IntegrityError.

(** INSERT of a permission row. *)
Definition insert (p : Permission) (t : table) : db_result :=
  if conflicts p t then IntegrityError else Done (p :: t).

(** [uq_permission_ras] as a property of the stored rows. *)
Definition uq_permission_ras (t : table) : Prop :=
  ∀ i j p q, t !! i = Some p → t !! j = Some q → i ≠ j →
             ras_conflict p q = false.

(** The scope as [full_name] sees it: NULL and the empty string are both
    no scope. *)
Definition effective_scope (p : Permission) : option string :=
  if truthy (scope p) then scope p else None.

Definition colon_free (s : string) : Prop := count_char ":" s = 0.

(** Sample rows. *)
Definition report_read_own_row : Permission :=
  new_Permission 20 "report.read.own" "Read own reports" None
                 "report" "read" (Some "own") None None.

Definition report_read_unscoped : Permission :=
  new_Permission 21 "report.read.any" "Read any report" None
                 "report" "read" None None None.

End PermissionTable.

(** ** Effects of the scripts and of the connection manager *)

Module Effects.

(** The objects [create_admin] builds and hands to [session.add]. *)
Inductive pending :=
  | NewOrganization
  | NewRole
  | NewUser
  | NewProfile.

Global Instance pending_eq_dec : EqDecision pending.
Proof. solve_decision. Defined.

(** The calls into the database, the cache, the model classes and the
    security package that the code modelled below makes.  Each of them can
    raise.  [ImportModels] stands for the [import] statements at the head of
    [create_admin], [Construct o] for the constructor call that builds
    [o]. *)
Inductive call :=
  | CreateAll
  | DropAll
  | EngineDispose
  | RedisFromUrl (url : string)
  | RedisPing
  | RedisClose
  | SelectOne
  | SessionClose
  | ImportModels
  | GetOrganization
  | GetRole
  | SelectAdminUser
  | GetPasswordHash
  | Construct (o : pending)
  | SessionCommit.

Global Instance call_eq_dec : EqDecision call.
Proof. solve_decision. Defined.

(** What a call raises when it does not return.  [Fails] stands for the
    exceptions derived from [Exception], with the text [str(e)].  The
    others are derived from [BaseException] only, so that [except Exception]
    lets them through: [KeyboardInterrupt], [asyncio.CancelledError],
    [SystemExit] with its code and, by the name of its class, any other. *)
Inductive fault :=
  | Fails (msg : string)
  | Interrupted
  | Cancelled
  | Exited (code : Z)
  | Escapes (class : string).

Inductive event :=
  | Called (c : call) (f : option fault)
  | Found (c : call) (hit : bool)
  | Printed (line : string)
  | Logged (line : string)
  | Added (o : pending).

(** What a Python function raises. *)
Inductive raised :=
  | Exception_ (msg : string)
  | KeyboardInterrupt
  | CancelledError
  | SystemExit (code : Z)
  | BaseException_ (class : string).

Inductive result (A : Type) :=
  | Return (a : A)
  | Raise (r : raised).
Arguments Return {A} a.
Arguments Raise {A} r.

(** The outside world: whether a call fails, and what a lookup finds, given
    everything that happened before. *)
Record world := {
  outcome : list event → call → option fault;
  found : list event → call → bool
}.

(** The state of the process: the module global [redis_client] of
    database.py, the attribute [redis] of [db_manager], and the events so
    far.  Clients are told apart by a number. *)
Record process := {
  redis_client : option nat;
  manager_redis : option nat;
  trace : list event
}.

Definition prog (A : Type) : Type := world → process → result A * process.

Global Instance prog_ret : MRet prog := λ A a _ p, (Return a, p).
Global Instance prog_bind : MBind prog :=
  λ A B k m w p,
    match m w p with
    | (Return a, p') => k a w p'
    | (Raise r, p') => (Raise r, p')
    end.

Definition record_event (e : event) (p : process) : process :=
  {| redis_client := redis_client p; manager_redis := manager_redis p;
     trace := trace p ++ [e] |}.

Definition raise_fault (f : fault) : raised :=
  match f with
  | Fails msg => Exception_ msg
  | Interrupted => KeyboardInterrupt
  | Cancelled => CancelledError
  | Exited code => SystemExit code
  | Escapes class => BaseException_ class
  end.

(** An awaited call: it is recorded with its outcome and raises when the
    world says so. *)
Definition perform (c : call) : prog unit :=
  λ w p,
    let f := outcome w (trace p) c in
    (match f with
     | None => Return tt
     | Some x => Raise (raise_fault x)
     end, record_event (Called c f) p).

(** A lookup: as [perform]; when it returns, whether it found something is
    recorded and returned. *)
Definition lookup (c : call) : prog bool :=
  λ w p,
    let f := outcome w (trace p) c in
    let hit := found w (trace p) c in
    match f with
    | None =>
        (Return hit, record_event (Found c hit) (record_event (Called c f) p))
    | Some x => (Raise (raise_fault x), record_event (Called c f) p)
    end.

Definition print (line : string) : prog unit :=
  λ _ p, (Return tt, record_event (Printed line) p).

Definition log (line : string) : prog unit :=
  λ _ p, (Return tt, record_event (Logged line) p).

Definition add (o : pending) : prog unit :=
  λ _ p, (Return tt, record_event (Added o) p).

Definition raise {A} (r : raised) : prog A := λ _ p, (Raise r, p).

(** [sys.exit(code)] *)
Definition sys_exit {A} (code : Z) : prog A := raise (SystemExit code).

(** [try: body  except Exception as e: handler(str(e))]: only an exception
    derived from [Exception] reaches the handler. *)
Definition try_except {A} (body : prog A) (handler : string → prog A)
    : prog A :=
  λ w p,
    match body w p with
    | (Raise (Exception_ msg), p') => handler msg w p'
    | other => other
    end.

(** [try: body  except KeyboardInterrupt: on_interrupt
    except Exception as e: handler(str(e))]: [SystemExit],
    [asyncio.CancelledError] and the like pass through both clauses. *)
Definition try_except_interrupt {A} (body : prog A) (on_interrupt : prog A)
    (handler : string → prog A) : prog A :=
  λ w p,
    match body w p with
    | (Raise KeyboardInterrupt, p') => on_interrupt w p'
    | (Raise (Exception_ msg), p') => handler msg w p'
    | other => other
    end.

(** [try: body  finally: cleanup]: the cleanup always runs; what it raises
    replaces the outcome of the body. *)
Definition try_finally {A} (body : prog A) (cleanup : prog unit) : prog A :=
  λ w p,
    match body w p with
    | (r, p') =>
        match cleanup w p' with
        | (Return _, p'') => (r, p'')
        | (Raise e, p'') => (Raise e, p'')
        end
    end.

(** [async with async_session_maker() as session: body]: the session is
    closed when the block is left, normally or not. *)
Definition with_session {A} (body : prog A) : prog A :=
  try_finally body (perform SessionClose).

(** The calls of a trace, in order. *)
Definition calls (tr : list event) : list call :=
  omap (λ e, match e with Called c _ => Some c | _ => None end) tr.

(** Every call of the trace returned. *)
Definition all_returned (tr : list event) : Prop :=
  ∀ c f, Called c f ∈ tr → f = None.

(** The same, as a test. *)
Definition returned (e : event) : bool :=
  match e with
  | Called _ (Some _) => false
  | _ => true
  end.

Global Instance fault_eq_dec : EqDecision fault.
Proof. solve_decision. Defined.

Global Instance event_eq_dec : EqDecision event.
Proof. solve_decision. Defined.

Global Instance raised_eq_dec : EqDecision raised.
Proof. solve_decision. Defined.

Global Instance result_eq_dec `{EqDecision A} : EqDecision (result A).
Proof. solve_decision. Defined.

(** The last call of a trace that raised, with what it raised. *)
Definition last_raised (tr : list event) : option (call * fault) :=
  last (omap (λ e, match e with
                   | Called c (Some f) => Some (c, f)
                   | _ => None
                   end) tr).

(** A process that has just started. *)
Definition started : process :=
  {| redis_client := None; manager_redis := None; trace := [] |}.

(** A world in which every call returns and every lookup finds nothing. *)
Definition calm : world :=
  {| outcome := λ _ _, None; found := λ _ _, false |}.

(** A world in which every call returns and the admin user is found. *)
Definition admin_present : world :=
  {| outcome := λ _ _, None;
     found := λ _ c, bool_decide (c = SelectAdminUser) |}.

End Effects.

(** ** database.py *)

Module DatabaseModel.
Import ConfigModel Effects.

(** [str.replace(old, new)] for a non-empty [old]: the occurrences of [old]
    are replaced from left to right without overlap.  [skip] counts the
    characters of a matched occurrence that are still to be dropped. *)
Fixpoint replace_from (old new : string) (skip : nat) (s : string)
    : string :=
  match s with
  | "" => ""
  | String c s' =>
      match skip with
      | S k => replace_from old new k s'
      | 0 =>
          if String.prefix old s
          then new +:+ replace_from old new (String.length old - 1) s'
          else String c (replace_from old new 0 s')
      end
  end.

Definition replace (old new s : string) : string :=
  replace_from old new 0 s.

(** The first argument of [create_async_engine]. *)
Definition engine_url (settings : Settings) : string :=
  replace "postgresql://" "postgresql+asyncpg://" (database_url settings).

(** [old] occurs in [s]. *)
Fixpoint occurs (old s : string) : bool :=
  String.prefix old s ||
  match s with
  | "" => false
  | String _ s' => occurs old s'
  end.

Definition set_redis_client (c : nat) (p : process) : process :=
  {| redis_client := Some c; manager_redis := manager_redis p;
     trace := trace p |}.

Definition set_manager_redis (c : nat) (p : process) : process :=
  {| redis_client := redis_client p; manager_redis := Some c;
     trace := trace p |}.

(** [get_redis]: the client is created on the first call and kept in the
    global. *)
Definition get_redis (settings : Settings) : prog nat :=
  λ w p,
    match redis_client p with
    | None =>
        match perform (RedisFromUrl (redis_url settings)) w p with
        | (Return _, p') =>
            let c := length (trace p) in
            (Return c, set_redis_client c p')
        | (Raise r, p') => (Raise r, p')
        end
    | Some c => (Return c, p)
    end.

(** [init_database] *)
Definition init_database : prog unit := perform CreateAll.

(** [close_database] *)
Definition close_database : prog unit :=
  perform EngineDispose;;
  ((λ w p,
     match redis_client p with
     | Some _ => perform RedisClose w p
     | None => (Return tt, p)
     end) : prog unit).

(** [DatabaseManager.connect] *)
Definition connect (settings : Settings) : prog unit :=
  c ← get_redis settings;
  ((λ _ p, (Return tt, set_manager_redis c p)) : prog unit);;
  try_except (perform RedisPing)
    (λ e, raise (Exception_ ("Failed to connect to Redis: " +:+ e))).

(** [DatabaseManager.disconnect] *)
Definition disconnect : prog unit := close_database.

(** [self.redis.ping()]: without a client the attribute access raises
    [AttributeError]. *)
Definition manager_ping : prog unit :=
  λ w p,
    match manager_redis p with
    | Some _ => perform RedisPing w p
    | None =>
        (Raise (Exception_ "'NoneType' object has no attribute 'ping'"), p)
    end.

(** [DatabaseManager.health_check].  The dictionary is threaded as a value:
    each handler overwrites the key its block may have set. *)
Definition health_check : prog (gmap string string) :=
  let status : gmap string string :=
    <["redis" := "unknown"]> (<["database" := "unknown"]> ∅) in
  status ← try_except
             (with_session
                (perform SelectOne;;
                 mret (<["database" := "healthy"]> status)))
             (λ e, mret (<["database" := "unhealthy: " +:+ e]> status));
  try_except
    (manager_ping;;
     mret (<["redis" := "healthy"]> status))
    (λ e, mret (<["redis" := "unhealthy: " +:+ e]> status)).

(** The operations on the connection globals, for sequences of them. *)
Inductive db_operation :=
  | GetRedis
  | CloseDatabase.

Definition run_operation (settings : Settings) (op : db_operation)
    (w : world) (p : process) : process :=
  match op with
  | GetRedis => (get_redis settings w p).2
  | CloseDatabase => (close_database w p).2
  end.

Definition run_operations (settings : Settings) (ops : list db_operation)
    (w : world) (p : process) : process :=
  foldl (λ p' op, run_operation settings op w p') p ops.

(** The clients created along a trace. *)
Definition created (tr : list event) : list string :=
  omap (λ e, match e with
             | Called (RedisFromUrl url) None => Some url
             | _ => None
             end) tr.

(** What happened after the first [n] events. *)
Definition since (n : nat) (p : process) : list event := drop n (trace p).

End DatabaseModel.

(** ** main.py *)

Module MainModel.
Import ConfigModel Effects DatabaseModel.

(** JSON values, as the bodies of the responses; a dictionary keeps the
    order in which its keys were written. *)
#[local] Unset Elimination Schemes.
Inductive json :=
  | JNull
  | JString (s : string)
  | JNumber (z : Z)
  | JArray (items : list json)
  | JObject (fields : list (string * json)).
#[local] Set Elimination Schemes.

(** [d[key]], when [d] is a dictionary that has the key. *)
Definition json_field (key : string) (j : json) : option json :=
  match j with
  | JObject fields =>
      snd <$> find (λ kv, bool_decide (kv.1 = key)) fields
  | _ => None
  end.

Record JSONResponse := {
  status_code : Z;
  content : json
}.

(** What an endpoint returns: a dictionary, sent with status 200, or a
    response object. *)
Inductive endpoint_result :=
  | Dict (body : json)
  | Response (r : JSONResponse).

(** The middleware classes with the arguments [setup_middleware] gives. *)
Inductive middleware :=
  | RequestIDMiddleware
  | SecurityHeadersMiddleware
  | CORSMiddleware (allow_origins : list string) (allow_credentials : bool)
                   (allow_methods allow_headers : list string)
  | TrustedHostMiddleware (allowed_hosts : list string)
  | GZipMiddleware (minimum_size : Z)
  | RateLimitMiddleware
  | AuditMiddleware.

Inductive route :=
  | IncludeRouter (prefix : string)
  | Get (path : string).

Inductive handled :=
  | ELAMSException
  | StarletteHTTPException
  | RequestValidationError
  | AnyException.

(** The application object, as far as [create_app] configures it.  The
    three lists keep the order of the registering calls. *)
Record FastAPI := {
  title : string;
  description : string;
  version : string;
  docs_url : option string;
  redoc_url : option string;
  openapi_url : option string;
  user_middleware : list middleware;
  exception_handlers : list handled;
  routes : list route
}.

(** [app.add_middleware(...)] *)
Definition add_middleware (m : middleware) (app : FastAPI) : FastAPI :=
  {| title := title app; description := description app;
     version := version app; docs_url := docs_url app;
     redoc_url := redoc_url app; openapi_url := openapi_url app;
     user_middleware := user_middleware app ++ [m];
     exception_handlers := exception_handlers app;
     routes := routes app |}.

Definition add_exception_handler (h : handled) (app : FastAPI) : FastAPI :=
  {| title := title app; description := description app;
     version := version app; docs_url := docs_url app;
     redoc_url := redoc_url app; openapi_url := openapi_url app;
     user_middleware := user_middleware app;
     exception_handlers := exception_handlers app ++ [h];
     routes := routes app |}.

Definition add_route (r : route) (app : FastAPI) : FastAPI :=
  {| title := title app; description := description app;
     version := version app; docs_url := docs_url app;
     redoc_url := redoc_url app; openapi_url := openapi_url app;
     user_middleware := user_middleware app;
     exception_handlers := exception_handlers app;
     routes := routes app ++ [r] |}.

(** [setup_middleware] *)
Definition setup_middleware (settings : Settings) (app : FastAPI)
    : FastAPI :=
  let app := add_middleware RequestIDMiddleware app in
  let app := add_middleware SecurityHeadersMiddleware app in
  let app :=
    add_middleware
      (CORSMiddleware (cors_origins settings) (cors_credentials settings)
                      (cors_methods settings) (cors_headers settings))
      app in
  let app :=
    if is_production settings
    then add_middleware
           (TrustedHostMiddleware
              (if is_development settings
               then ["*"]
               else ["yourdomain.com"; "*.yourdomain.com"]))
           app
    else app in
  let app := add_middleware (GZipMiddleware 1000) app in
  let app := add_middleware RateLimitMiddleware app in
  add_middleware AuditMiddleware app.

(** [setup_exception_handlers]: the four registrations. *)
Definition setup_exception_handlers (app : FastAPI) : FastAPI :=
  add_exception_handler AnyException
    (add_exception_handler RequestValidationError
       (add_exception_handler StarletteHTTPException
          (add_exception_handler ELAMSException app))).

(** [create_app] *)
Definition create_app (settings : Settings) : FastAPI :=
  let app :=
    {| title := api_title settings;
       description := api_description settings;
       version := api_version settings;
       docs_url := if is_development settings
                   then Some (api_docs_url settings) else None;
       redoc_url := if is_development settings
                    then Some (api_redoc_url settings) else None;
       openapi_url := if is_development settings
                      then Some "/openapi.json" else None;
       user_middleware := []; exception_handlers := []; routes := [] |} in
  let app := setup_middleware settings app in
  let app := setup_exception_handlers app in
  let app := add_route (IncludeRouter "/api") app in
  let app := add_route (Get "/health") app in
  if prometheus_enabled settings
  then add_route (Get "/metrics") app
  else app.

(** The dictionary of [db_manager.health_check()] as a JSON object. *)
Definition status_json (status : gmap string string) : json :=
  JObject ((λ kv, (kv.1, JString kv.2)) <$> map_to_list status).

(** The endpoint [health_check] defined inside [create_app]. *)
Definition health_endpoint (settings : Settings) : prog endpoint_result :=
  try_except
    (db_status ← health_check;
     mret (Dict (JObject [("status", JString "healthy");
                          ("version", JString (app_version settings));
                          ("environment", JString (environment settings));
                          ("database", status_json db_status)])))
    (λ e,
       log ("Health check failed: " +:+ e);;
       mret (Response
               {| status_code := 503;
                  content :=
                    JObject [("status", JString "unhealthy");
                             ("error", JString e);
                             ("version", JString (app_version settings));
                             ("environment",
                              JString (environment settings))] |})).

(** The attributes of an [ELAMSException] that its handler reads. *)
Record elams_exception := {
  message : string;
  error_code : string;
  details : json;
  exc_status_code : Z
}.

(** [elams_exception_handler] *)
Definition elams_exception_handler (settings : Settings)
    (exc : elams_exception) : prog JSONResponse :=
  log ("ELAMS exception: " +:+ message exc);;
  mret {| status_code := exc_status_code exc;
          content :=
            JObject [("error",
              JObject [("code", JString (error_code exc));
                       ("message", JString (message exc));
                       ("details", if is_development settings
                                   then details exc else JNull)])] |}.

(** [http_exception_handler], for an exception with the given status code
    and detail. *)
Definition http_exception_handler (code : Z) (detail : string)
    : prog JSONResponse :=
  log ("HTTP exception: " +:+ detail);;
  mret {| status_code := code;
          content :=
            JObject [("error",
              JObject [("code", JString "HTTP_ERROR");
                       ("message", JString detail)])] |}.

(** [validation_exception_handler]; [errors] is [exc.errors()] and
    [shown] its text in the log line. *)
Definition validation_exception_handler (settings : Settings)
    (errors : json) (shown : string) : prog JSONResponse :=
  log ("Validation error: " +:+ shown);;
  mret {| status_code := 422;
          content :=
            JObject [("error",
              JObject [("code", JString "VALIDATION_ERROR");
                       ("message", JString "Request validation failed");
                       ("details", if is_development settings
                                   then errors else JNull)])] |}.

(** [general_exception_handler]; [text] is [str(exc)]. *)
Definition general_exception_handler (settings : Settings) (text : string)
    : prog JSONResponse :=
  log ("Unexpected error: " +:+ text);;
  mret {| status_code := 500;
          content :=
            JObject [("error",
              JObject [("code", JString "INTERNAL_ERROR");
                       ("message", JString "An unexpected error occurred");
                       ("details", if is_development settings
                                   then JString text else JNull)])] |}.

(** The value under [error.details] of a response body. *)
Definition error_details (r : JSONResponse) : option json :=
  json_field "error" (content r) ≫= json_field "details".

End MainModel.

(** ** manage.py *)

Module ManageModel.
Import ConfigModel Effects DatabaseModel.

(** [create_tables] *)
Definition create_tables : prog unit :=
  print "Creating database tables...";;
  try_except
    (init_database;;
     print "✅ Database tables created successfully")
    (λ e,
       print ("❌ Error creating tables: " +:+ e);;
       sys_exit 1).

(** [drop_tables] *)
Definition drop_tables : prog unit :=
  print "Dropping database tables...";;
  try_except
    (perform DropAll;;
     print "✅ Database tables dropped successfully")
    (λ e,
       print ("❌ Error dropping tables: " +:+ e);;
       sys_exit 1).

(** [reset_database] *)
Definition reset_database : prog unit :=
  print "Resetting database...";;
  drop_tables;;
  create_tables;;
  print "✅ Database reset completed".

(** The block of [create_admin] that runs inside the session; it returns
    [false] when it leaves the function early. *)
Definition create_admin_in_session : prog bool :=
  org ← lookup GetOrganization;
  (if (org : bool) then mret tt
   else perform (Construct NewOrganization);; add NewOrganization);;
  superuser_role ← lookup GetRole;
  (if (superuser_role : bool) then mret tt
   else perform (Construct NewRole);; add NewRole);;
  existing_user ← lookup SelectAdminUser;
  if (existing_user : bool)
  then
    (print "❌ Admin user already exists";;
     mret false : prog bool)
  else
    perform GetPasswordHash;;
    perform (Construct NewUser);;
    add NewUser;;
    perform (Construct NewProfile);;
    add NewProfile;;
    perform SessionCommit;;
    mret true.

(** [create_admin]; the imports come before the [try]. *)
Definition create_admin : prog unit :=
  perform ImportModels;;
  print "Creating admin user...";;
  try_except
    (created ← with_session create_admin_in_session;
     if (created : bool)
     then
       (print "✅ Admin user created successfully";;
        print "   Username: admin";;
        print "   Password: Admin123!@#";;
        print "   Email: admin@elams.local" : prog unit)
     else mret tt)
    (λ e,
       print ("❌ Error creating admin user: " +:+ e);;
       sys_exit 1).

(** [run_migrations] *)
Definition run_migrations : prog unit :=
  print "Running database migrations...";;
  create_tables;;
  print "✅ Migrations completed".

Definition help_text : string := "
ELAMS Management Script

Usage: python manage.py <command>

Commands:
  create-tables    Create all database tables
  drop-tables      Drop all database tables  
  reset-db         Reset database (drop and recreate tables)
  create-admin     Create an admin user
  migrate          Run database migrations
  help             Show this help message

Examples:
  python manage.py create-tables
  python manage.py create-admin
  python manage.py reset-db
    ".

(** [print_help] *)
Definition print_help : prog unit := print help_text.

(** The [if]/[elif] chain of [main]. *)
Definition dispatch (command : string) : prog unit :=
  if bool_decide (command = "create-tables") then create_tables
  else if bool_decide (command = "drop-tables") then drop_tables
  else if bool_decide (command = "reset-db") then reset_database
  else if bool_decide (command = "create-admin") then create_admin
  else if bool_decide (command = "migrate") then run_migrations
  else if bool_decide (command = "help") then print_help
  else
    print ("❌ Unknown command: " +:+ command);;
    print_help;;
    sys_exit 1.

(** [main], with [argv] for [sys.argv]. *)
Definition main (settings : Settings) (argv : list string) : prog unit :=
  match argv with
  | _ :: command :: _ =>
      print ("ELAMS Management - Environment: " +:+ environment settings);;
      print ("Database URL: " +:+ database_url settings);;
      print "";;
      try_finally
        (try_except_interrupt
           (dispatch command)
           (print (String "010" "❌ Operation cancelled by user");;
            sys_exit 1)
           (λ e,
              print ("❌ Unexpected error: " +:+ e);;
              sys_exit 1))
        close_database
  | _ =>
      print_help;;
      sys_exit 1
  end.

(** The last branch of the chain. *)
Definition unknown_command (command : string) : prog unit :=
  print ("❌ Unknown command: " +:+ command);;
  print_help;;
  sys_exit 1.

(** The commands [main] knows. *)
Definition commands : list string :=
  ["create-tables"; "drop-tables"; "reset-db"; "create-admin"; "migrate";
   "help"].

(** The script run in a process that has just started. *)
Definition run (settings : Settings) (argv : list string) (w : world)
    : result unit * process :=
  main settings argv w started.

Definition returns (r : result unit) : bool :=
  match r with
  | Return _ => true
  | Raise _ => false
  end.

Definition disposal_check (tr : list event) : bool :=
  bool_decide (last (calls tr) = Some EngineDispose) &&
  bool_decide (length (filter (λ c, c = EngineDispose) (calls tr)) = 1) &&
  bool_decide (RedisClose ∉ calls tr).

(** What [main] ends with, as the last exception raised by one of its
    calls decides.  Without any, it returns for a command it knows and
    exits with status 1 for another.  What disposing of the engine raises
    in the [finally] clause is what [main] raises.  An exception of the
    command derived from [Exception], or [KeyboardInterrupt], is turned
    into [sys.exit(1)] by an [except] clause; any other passes through. *)
Definition main_outcome (known : bool) (tr : list event) : result unit :=
  match last_raised tr with
  | None => if known then Return tt else Raise (SystemExit 1)
  | Some (EngineDispose, f) => Raise (raise_fault f)
  | Some (_, (Fails _ | Interrupted)) => Raise (SystemExit 1)
  | Some (_, f) => Raise (raise_fault f)
  end.

Definition reset_check (tr : list event) : bool :=
  Bool.eqb (bool_decide (CreateAll ∈ calls tr))
           (bool_decide (Called DropAll None ∈ tr)).

Definition admin_check (r : result unit) (tr : list event) : bool :=
  (if bool_decide (Found SelectAdminUser true ∈ tr)
   then bool_decide (SessionCommit ∉ calls tr) &&
        bool_decide (Added NewUser ∉ tr) &&
        bool_decide (Added NewProfile ∉ tr) &&
        (if forallb returned tr then returns r else true)
   else true) &&
  (if bool_decide (SessionCommit ∈ calls tr)
   then bool_decide (Found SelectAdminUser false ∈ tr) &&
        bool_decide (Added NewUser ∈ tr) &&
        bool_decide (Added NewProfile ∈ tr) &&
        Bool.eqb (bool_decide (Added NewOrganization ∈ tr))
                 (bool_decide (Found GetOrganization false ∈ tr)) &&
        Bool.eqb (bool_decide (Added NewRole ∈ tr))
                 (bool_decide (Found GetRole false ∈ tr))
   else true).

(** What is checked of every run of [main] with a command; [reset] and
    [admin] tell whether the command is [reset-db] and [create-admin]. *)
Definition main_check (reset admin : bool) (r : result unit)
    (tr : list event) : bool :=
  disposal_check tr &&
  (if reset then reset_check tr else true) &&
  (if admin then admin_check r tr else true).

End ManageModel.

(** * Theorems *)

(** ** Theorems about [Permission] *)

Module PermissionFacts.
Import RoleModel.

Lemma count_char_app c s t :
  count_char c (s +:+ t) = count_char c s + count_char c t.
Proof.
  induction s as [|a s IH]; simpl; [done|].
  rewrite IH. lia.
Qed.

Example full_name_with_scope :
  full_name (new_Permission 3%N "n" "d" None "report" "read" (Some "own")
                            None None) = "report:read:own".
Proof. reflexivity. Qed.

Example full_name_without_scope :
  full_name (new_Permission 3%N "n" "d" None "report" "read" None
                            None None) = "report:read".
Proof. reflexivity. Qed.

(** C1, as stated, fails: a permission whose scope is present (not NULL) but
    empty gets the two-part name, not resource:action followed by a colon and
    the (empty) scope. *)
Lemma full_name_empty_scope_counterexample :
  scope report_read_empty ≠ None ∧
  full_name report_read_empty = "report:read" ∧
  full_name report_read_empty ≠
    resource report_read_empty +:+ ":" +:+ action report_read_empty +:+ ":"
      +:+ default "" (scope report_read_empty).
Proof. by repeat split. Qed.

(** C1 (amended): the full name is resource, a colon and the action, with a
    further colon and the scope appended exactly when the scope is present
    and not the empty string; otherwise the name is the join of exactly two
    parts and holds exactly one colon more than resource and action do. *)
Theorem full_name_canonical (p : Permission) :
  match scope p with
  | Some (String c s) =>
      full_name p = resource p +:+ ":" +:+ action p +:+ ":" +:+ String c s ∧
      length (full_name_parts p) = 3
  | _ =>
      full_name p = resource p +:+ ":" +:+ action p ∧
      length (full_name_parts p) = 2 ∧
      separated_parts ":"%char (full_name p) =
        separated_parts ":"%char (resource p) + separated_parts ":"%char (action p)
  end.
Proof.
  unfold full_name, full_name_parts, separated_parts.
  destruct (scope p) as [[|c s]|]; simpl; repeat split;
    rewrite !count_char_app; simpl; lia.
Qed.

(** C7, as stated, fails: the model accepts a permission whose scope is a
    string outside the four listed ones. *)
Lemma scope_outside_vocabulary_counterexample :
  Permission_storable report_read_team = true ∧
  scope report_read_team = Some "team" ∧
  ¬ scope_in_vocabulary report_read_team.
Proof.
  split; [by vm_compute|]. split; [done|].
  unfold scope_in_vocabulary, scope_vocabulary; simpl.
  rewrite !elem_of_cons, elem_of_nil. intros [?|[?|[?|[?|[]]]]]; discriminate.
Qed.

(** C7 (amended): the scope column is a nullable string of at most 100
    characters and nothing more: the constructor stores the scope it is given
    unchanged, and whether the row is storable does not depend on the scope
    beyond its length.  The four listed strings are accepted, as examples. *)
Theorem scope_is_free_text (pid : uuid) (nm dn res act : string)
    (sc : option string) :
  let p := new_Permission pid nm dn None res act sc None None in
  scope p = sc ∧
  Permission_storable p =
    String_fits 100 nm && String_fits 200 dn && String_fits 100 res &&
    String_fits 50 act && String_fits_nullable 100 sc ∧
  Forall (λ s, String_fits_nullable 100 (Some s) = true) scope_vocabulary.
Proof.
  repeat split.
  repeat constructor.
Qed.

End PermissionFacts.

(** ** Theorems about sessions *)

Module SessionFacts.
Import SessionModel TrustMonitor.

Lemma clip_in_range (v : integer) : in_score_range (clip v).
Proof. unfold in_score_range, clip. lia. Qed.

(** C2, as stated, fails: the record of a fresh session carries the lowest
    score of the range, and even the smallest positive threshold does not
    force a step-up for it. *)
Lemma fresh_session_low_risk_counterexample :
  risk_score (fresh_session 0) = 0%Z ∧
  (∀ v, in_score_range v → (risk_score (fresh_session 0) ≤ v)%Z) ∧
  step_up_required 1 (risk_score (fresh_session 0)) = false.
Proof.
  split; [done|]. split; [|done].
  intros v [Hv _]. exact Hv.
Qed.

(** C2 (amended): when no signal source is available the monitor's score is
    the high-risk default, which triggers the step-up under every threshold
    of the range; the session record itself is created with the column
    default 0, the lowest value of the range, with the suspicious and MFA
    flags false (a new activity row has score 0 as well), and this stored
    default does not trigger the step-up under any positive threshold. *)
Theorem fresh_session_defaults (now : datetime) (sid uid : uuid)
    (token : string) (expires : DateTime) (threshold : integer) :
  (0 < threshold ≤ 100)%Z →
  let s := new_UserSession now sid uid token expires None None None None in
  step_up_required threshold (score None) = true ∧
  risk_score s = 0%Z ∧ is_suspicious s = false ∧ mfa_verified s = false ∧
  activity_risk_score (new_SessionActivity now sid "login" None None) = 0%Z ∧
  step_up_required threshold (risk_score s) = false.
Proof.
  intros Hthreshold s. unfold step_up_required, score, high_risk_default.
  split; [apply bool_decide_eq_true; lia|].
  repeat split. simpl. apply bool_decide_eq_false. lia.
Qed.

Lemma fresh_session_defaults_witness :
  (0 < 70 ≤ 100)%Z ∧
  step_up_required 70
    (risk_score (new_UserSession 0 7%N 1%N "tok" (Naive 10)
                                 None None None None))
  = false.
Proof.
  split; [lia|].
  apply (fresh_session_defaults 0%Z 7%N 1%N "tok" (Naive 10) 70%Z). lia.
Defined.

(** A score of 150 given to the constructor and a score of -5 assigned to
    a device are held as they are, outside the range. *)
Example out_of_range_scores_held :
  let s := new_UserSession 0 7%N 1%N "tok" (Naive 10) None None
                           (Some 150%Z) None in
  let d := set_trust_score (-5) (new_DeviceInfo 1%N "fp" None None) in
  risk_score s = 150%Z ∧ ¬ in_score_range (risk_score s) ∧
  UserSession_storable s = true ∧
  trust_score d = (-5)%Z ∧ ¬ in_score_range (trust_score d) ∧
  DeviceInfo_storable d = true.
Proof.
  unfold in_score_range; simpl. repeat split; lia.
Qed.

(** A score outside the [Integer] range is not written at all. *)
Example score_outside_integer_range_refused :
  UserSession_storable (set_risk_score 2147483648 (fresh_session 0)) = false.
Proof. reflexivity. Qed.

(** C3: the records do not keep their scores within [0, 100].  Every value
    of the [Integer] range, given at creation or assigned later, is held
    unchanged by [risk_score] and by [trust_score], and the row is written
    with it as it was before; so the stored score lies in [0, 100] only when
    the value written does.  Only the column default, 0, lies in the range
    by itself. *)
Theorem scores_stored_as_written (now : datetime) (sid uid : uuid)
    (token fp : string) (expires : DateTime) (v : integer)
    (s : UserSession) (d : DeviceInfo) :
  Integer_fits v = true →
  risk_score (new_UserSession now sid uid token expires
                              None None (Some v) None) = v ∧
  trust_score (new_DeviceInfo uid fp None (Some v)) = v ∧
  risk_score (set_risk_score v s) = v ∧
  trust_score (set_trust_score v d) = v ∧
  (UserSession_storable s = true →
   UserSession_storable (set_risk_score v s) = true) ∧
  (DeviceInfo_storable d = true →
   DeviceInfo_storable (set_trust_score v d) = true) ∧
  (in_score_range (risk_score (set_risk_score v s)) ↔ in_score_range v) ∧
  (in_score_range (trust_score (set_trust_score v d)) ↔ in_score_range v) ∧
  in_score_range
    (risk_score (new_UserSession now sid uid token expires
                                 None None None None)) ∧
  in_score_range (trust_score (new_DeviceInfo uid fp None None)).
Proof.
  intros Hfits. unfold UserSession_storable, DeviceInfo_storable.
  simpl. rewrite Hfits. unfold in_score_range.
  do 4 (split; [done|]).
  split; [rewrite !andb_true_iff; tauto|].
  split; [rewrite !andb_true_iff; tauto|].
  do 2 (split; [done|]). split; lia.
Qed.

Lemma scores_stored_as_written_witness :
  Integer_fits 150 = true ∧
  risk_score (set_risk_score 150 (fresh_session 0)) = 150%Z ∧
  UserSession_storable (set_risk_score 150 (fresh_session 0)) = true ∧
  ¬ in_score_range (risk_score (set_risk_score 150 (fresh_session 0))).
Proof.
  assert (Integer_fits 150 = true) as Hfits by reflexivity.
  destruct (scores_stored_as_written 0 7%N 1%N "tok" "fp" (Naive 10) 150
              (fresh_session 0) (new_DeviceInfo 1%N "fp" None None) Hfits)
    as (_ & _ & Hheld & _ & Hrow & _ & Hrange & _).
  split; [exact Hfits|]. split; [exact Hheld|].
  split; [apply Hrow; reflexivity|].
  rewrite Hrange. unfold in_score_range. lia.
Defined.

(** C8: at one instant an active session is not expired. *)
Theorem active_not_expired (s : UserSession) (now : datetime) :
  is_active s now = Returns true → is_expired s now = Returns false.
Proof.
  unfold is_active, is_expired, datetime_gt, datetime_le, utcnow.
  case_bool_decide as Hst; [|done].
  destruct (expires_at s) as [e|e]; [|done].
  case_bool_decide as Hgt; [|done]. intros _.
  rewrite bool_decide_eq_false_2 by lia.
  rewrite bool_decide_eq_false_2; [done|]. rewrite Hst. discriminate.
Qed.

Lemma active_not_expired_witness :
  is_active (fresh_session 0) 5 = Returns true ∧
  is_expired (fresh_session 0) 5 = Returns false.
Proof.
  split; [reflexivity|].
  apply (active_not_expired (fresh_session 0) 5%Z). reflexivity.
Defined.

End SessionFacts.

(** ** Theorems about MFA tokens *)

Module MFAFacts.
Import MFAModel.

Example login_token_valid : is_valid login_token 1000 = Returns true.
Proof. reflexivity. Qed.

Example login_token_at_expiry :
  is_valid login_token 300000000 = Returns false.
Proof. reflexivity. Qed.

(** C9: what [is_valid] gives at an instant.  It returns true exactly when
    the token is pending, its expiry is a naive object strictly after the
    instant, and it has attempts left; a token out of attempts, or used,
    expired or revoked, is never valid.  For a pending token whose expiry is
    an aware object, as the [DateTime(timezone=True)] column gives it, the
    comparison with [datetime.utcnow()] raises [TypeError] where the token
    should be valid: so it is for the sample token loaded from its row. *)
Theorem is_valid_iff (t : MFAToken) (now : datetime) :
  (is_valid t now = Returns true ↔
     status t = PENDING ∧ (∃ e, expires_at t = Naive e ∧ (now < e)%Z) ∧
     (attempts t < max_attempts t)%Z) ∧
  (is_valid t now = TypeError ↔
     status t = PENDING ∧ ∃ e, expires_at t = Aware e) ∧
  ((max_attempts t ≤ attempts t)%Z → is_valid t now ≠ Returns true) ∧
  is_valid (with_status USED t) now = Returns false ∧
  is_valid (with_status EXPIRED t) now = Returns false ∧
  is_valid (with_status REVOKED t) now = Returns false ∧
  (status loaded_token = PENDING ∧
   expires_at loaded_token = Aware 300000000 ∧
   (attempts loaded_token < max_attempts loaded_token)%Z ∧
   is_valid loaded_token 1000 = TypeError).
Proof.
  assert (is_valid t now = Returns true ↔
            status t = PENDING ∧
            (∃ e, expires_at t = Naive e ∧ (now < e)%Z) ∧
            (attempts t < max_attempts t)%Z) as Htrue.
  { unfold is_valid, datetime_gt, utcnow.
    case_bool_decide as Hst; [|split; [done|by intros [? _]]].
    destruct (expires_at t) as [e|e].
    - case_bool_decide as Hgt.
      + case_bool_decide as Hatt.
        * split; [intros _|done]. split; [done|]. split; [|done].
          exists e. split; [done|lia].
        * split; [done|]. by intros (_ & _ & ?).
      + split; [done|]. intros (_ & (e' & [= <-] & ?) & _). lia.
    - split; [done|]. by intros (_ & (e' & ? & _) & _). }
  split; [exact Htrue|]. split; [|split; [|done]].
  - unfold is_valid, datetime_gt, utcnow.
    case_bool_decide as Hst; [|split; [done|by intros [? _]]].
    destruct (expires_at t) as [e|e].
    + split; [by repeat case_bool_decide|]. by intros (_ & e' & ?).
    + split; [intros _|done]. split; [done|]. by exists e.
  - intros Hle Hvalid. apply Htrue in Hvalid as (_ & _ & Hatt). lia.
Qed.

Lemma is_valid_iff_witness :
  (max_attempts exhausted_token ≤ attempts exhausted_token)%Z ∧
  is_valid exhausted_token 1000 ≠ Returns true.
Proof.
  split; [simpl; lia|].
  apply (proj1 (proj2 (proj2 (is_valid_iff exhausted_token 1000%Z)))).
  simpl; lia.
Defined.

End MFAFacts.

(** ** Theorems about the [role_permissions] table *)

Module RolePermissionTableFacts.
Import RoleModel RolePermissionTable.

Lemma constraints_insert g t t' :
  constraints_hold t → insert g t = Done t' → constraints_hold t'.
Proof.
  unfold insert, conflicts. intros [Hid Hkey] Hins.
  destruct (bool_decide (grant_id g ∈ grant_id <$> t)) eqn:E1; [done|].
  destruct (bool_decide (uq_role_permission g ∈ uq_role_permission <$> t))
    eqn:E2; [done|].
  apply bool_decide_eq_false in E1, E2.
  simpl in Hins. injection Hins as <-.
  split; rewrite fmap_cons; by constructor.
Qed.

Lemma constraints_delete gid t :
  constraints_hold t → constraints_hold (delete gid t).
Proof.
  unfold delete. intros [Hid Hkey].
  split; (eapply sublist_NoDup; [eassumption|]);
    apply fmap_sublist, sublist_filter.
Qed.

Lemma constraints_execute t st :
  constraints_hold t → constraints_hold (execute t st).
Proof.
  intros Ht. destruct st as [g|gid|gid g']; simpl.
  - destruct (insert g t) eqn:E; [|done]. by eapply constraints_insert.
  - by apply constraints_delete.
  - unfold update. case_bool_decide; [|done].
    destruct (insert g' (delete gid t)) eqn:E; [|done].
    eapply constraints_insert; [|exact E]. by apply constraints_delete.
Qed.

Lemma constraints_run_from t sts :
  constraints_hold t → constraints_hold (foldl execute t sts).
Proof.
  revert t. induction sts as [|st sts IH]; intros t Ht; simpl; [done|].
  apply IH. by apply constraints_execute.
Qed.

Lemma unique_key_at_most_one {A K} `{EqDecision K} (f : A → K) (k : K)
    (l : list A) :
  NoDup (f <$> l) → length (filter (λ x, f x = k) l) ≤ 1.
Proof.
  induction l as [|x l IH]; [simpl; lia|].
  rewrite fmap_cons, NoDup_cons. intros [Hx Hl].
  rewrite filter_cons. case_decide as Hk; [|by apply IH].
  simpl. assert (filter (λ y, f y = k) l = []) as ->; [|simpl; lia].
  destruct (filter (λ y, f y = k) l) as [|y l'] eqn:E; [done|].
  assert (y ∈ filter (λ y, f y = k) l) as Hy by (rewrite E; left).
  apply list_elem_of_filter in Hy as [Hfy Hy].
  destruct Hx. rewrite Hk, <- Hfy. by apply list_elem_of_fmap_2.
Qed.

Example second_grant_rejected :
  run [INSERT (grant 1 10 20); INSERT (grant 2 10 20)] = [grant 1 10 20].
Proof. reflexivity. Qed.

Example update_into_conflict_rejected :
  run [INSERT (grant 1 10 20); INSERT (grant 2 10 21);
       UPDATE 2 (grant 2 10 20)] = [grant 2 10 21; grant 1 10 20].
Proof. reflexivity. Qed.

(** C10: in every database state reached from the empty table by INSERT,
    UPDATE and DELETE statements, a (role_id, permission_id) pair has at
    most one grant row. *)
Theorem at_most_one_grant_row (sts : list statement) (r p : uuid) :
  grant_rows r p (run sts) ≤ 1.
Proof.
  unfold grant_rows, run.
  apply unique_key_at_most_one.
  apply (constraints_run_from [] sts).
  split; constructor.
Qed.

End RolePermissionTableFacts.

(** ** Theorems about the role graph resolver *)

Module ResolverFacts.
Import RoleModel Resolver.

Section budget.
Variable edges : list RoleHierarchy.
Variable universe : gset uuid.
Hypothesis successors_in_universe :
  ∀ r s, s ∈ successors edges r → s ∈ universe.

Lemma for_each_within_budget (f : gset uuid → uuid → outcome (gset uuid))
    (l : list uuid) :
  (∀ v s, s ∈ l → f v s ≠ Err TraversalBudgetExceeded) →
  ∀ v, for_each f l v ≠ Err TraversalBudgetExceeded.
Proof.
  induction l as [|s l IH]; intros Hf v; simpl; [done|].
  destruct (f v s) as [v'|e] eqn:E.
  - apply IH. intros v0 s0 Hs0. apply Hf. by right.
  - rewrite <- E. apply Hf. by left.
Qed.

Lemma visit_within_budget budget :
  ∀ path visited r,
    path ⊆ universe → r ∈ universe →
    size universe < budget + size path →
    visit edges budget path visited r ≠ Err TraversalBudgetExceeded.
Proof.
  induction budget as [|budget IH]; intros path visited r Hpath Hr Hsize.
  - apply subseteq_size in Hpath. lia.
  - simpl. destruct (decide (r ∈ path)) as [|Hnew]; [done|].
    destruct (decide (r ∈ visited)); [done|].
    assert (size ({[r]} ∪ path) = S (size path)) as Hgrow.
    { rewrite size_union by set_solver. by rewrite size_singleton. }
    assert ({[r]} ∪ path ⊆ universe) as Hpath'.
    { apply union_least; [by apply singleton_subseteq_l|done]. }
    assert (size universe < budget + size ({[r]} ∪ path)) as Hsize'
      by lia.
    pose proof (for_each_within_budget
                  (visit edges budget ({[r]} ∪ path))
                  (successors edges r)) as Hall.
    specialize (Hall (λ v s Hs,
      IH ({[r]} ∪ path) v s Hpath'
         (successors_in_universe r s Hs) Hsize') visited).
    destruct (for_each _ _ _); [done|]. congruence.
Qed.
End budget.

Lemma resolve_from_within_budget edges roots :
  resolve_from edges roots ≠ Err TraversalBudgetExceeded.
Proof.
  unfold resolve_from. apply for_each_within_budget.
  intros v s Hs.
  apply (visit_within_budget edges (role_universe edges roots)).
  - intros r s'. unfold successors, role_universe.
    rewrite list_elem_of_fmap. intros (e & -> & He).
    apply list_elem_of_filter in He as [_ He].
    apply elem_of_union_r, elem_of_list_to_set. by apply list_elem_of_fmap_2.
  - set_solver.
  - unfold role_universe. set_solver.
  - rewrite size_empty. lia.
Qed.

Section invariant.
Variable edges : list RoleHierarchy.

Lemma closed_reach (visited : gset uuid) u v :
  (∀ u s, u ∈ visited → inherits edges u s → s ∈ visited) →
  u ∈ visited → rtc (inherits edges) u v → v ∈ visited.
Proof.
  intros Hclosed Hu Hreach. induction Hreach as [|u s v Hus _ IH]; [done|].
  apply IH. by eapply Hclosed.
Qed.

Lemma explored_finish path visited r :
  explored edges ({[r]} ∪ path) visited →
  (∀ s, s ∈ successors edges r → s ∈ visited) →
  r ∉ path →
  explored edges path ({[r]} ∪ visited).
Proof.
  intros [Hclosed Hacyclic Hoff] Hsucc Hr.
  assert (r ∉ visited) as Hfresh by set_solver.
  split.
  - intros u s Hu Hus. apply elem_of_union in Hu as [Hu|Hu].
    + apply elem_of_singleton in Hu as ->. apply elem_of_union_r.
      by apply Hsucc.
    + apply elem_of_union_r. by eapply Hclosed.
  - intros u Hu Hcycle. apply elem_of_union in Hu as [Hu|Hu].
    + apply elem_of_singleton in Hu as ->.
      apply Hfresh.
      assert (∃ s, inherits edges r s ∧ rtc (inherits edges) s r)
        as (s & Hrs & Hsr).
      { inversion Hcycle as [x y Hxy|x y z Hxy Hyz]; subst.
        - exists r. split; [done|apply rtc_refl].
        - exists y. split; [done|by apply tc_rtc]. }
      eapply closed_reach; [exact Hclosed| |exact Hsr]. by apply Hsucc.
    + by eapply Hacyclic.
  - apply elem_of_disjoint. intros x Hx Hx'.
    apply elem_of_union in Hx' as [Hx'|Hx'].
    + apply elem_of_singleton in Hx' as ->. done.
    + apply (proj1 (elem_of_disjoint _ _) Hoff x); [|done].
      by apply elem_of_union_r.
Qed.

Lemma for_each_explored f path (l : list uuid) :
  visit_spec edges f path →
  ∀ visited visited',
    explored edges path visited → for_each f l visited = Ok visited' →
    explored edges path visited' ∧ visited ⊆ visited' ∧
    (∀ s, s ∈ l → s ∈ visited').
Proof.
  intros Hf. induction l as [|s l IH]; intros visited visited' Hinv; simpl.
  - intros [= <-]. split; [done|]. split; [done|].
    intros s Hs. by apply elem_of_nil in Hs.
  - destruct (f visited s) as [v1|e] eqn:E; [|done].
    intros Hrest.
    destruct (Hf _ _ _ Hinv E) as (Hinv1 & Hsub1 & Hs1).
    destruct (IH _ _ Hinv1 Hrest) as (Hinv2 & Hsub2 & Hl).
    split; [done|]. split; [by etrans|].
    intros s' Hs'. apply elem_of_cons in Hs' as [->|Hs']; [|by apply Hl].
    by apply Hsub2.
Qed.

Lemma visit_explored budget :
  ∀ path, visit_spec edges (visit edges budget path) path.
Proof.
  induction budget as [|budget IH]; intros path visited r visited' Hinv;
    simpl; [done|].
  destruct (decide (r ∈ path)) as [|Hnew]; [done|].
  destruct (decide (r ∈ visited)) as [Hseen|Hunseen].
  { intros [= <-]. done. }
  destruct (for_each _ _ _) as [v1|e] eqn:E; [|done].
  intros [= <-].
  assert (explored edges ({[r]} ∪ path) visited) as Hinv'.
  { destruct Hinv as [Hc Ha Ho]. split; [done|done|].
    apply disjoint_union_l. split; [|done].
    by apply disjoint_singleton_l. }
  destruct (for_each_explored _ _ _ (IH ({[r]} ∪ path)) _ _ Hinv' E)
    as (Hinv1 & Hsub & Hsucc).
  split; [by apply explored_finish|]. set_solver.
Qed.

Lemma resolve_from_explored roots visited :
  resolve_from edges roots = Ok visited →
  explored edges ∅ visited ∧ (∀ d, d ∈ roots → d ∈ visited).
Proof.
  unfold resolve_from. intros Hok.
  assert (explored edges ∅ ∅) as Hinit.
  { split; [set_solver|set_solver|set_solver]. }
  destruct (for_each_explored _ _ _ (visit_explored _ ∅) _ _ Hinit Hok)
    as (Hinv & _ & Hroots).
  done.
Qed.

Lemma for_each_reaches (f : gset uuid → uuid → outcome (gset uuid))
    (l : list uuid) :
  (∀ visited s visited' x,
     f visited s = Ok visited' → x ∈ visited' →
     x ∈ visited ∨ rtc (inherits edges) s x) →
  ∀ visited visited' x,
    for_each f l visited = Ok visited' → x ∈ visited' →
    x ∈ visited ∨ ∃ s, s ∈ l ∧ rtc (inherits edges) s x.
Proof.
  intros Hf. induction l as [|s l IH]; intros visited visited' x; simpl.
  - intros [= <-] Hx. by left.
  - destruct (f visited s) as [v1|e] eqn:E; [|done].
    intros Hrest Hx.
    destruct (IH _ _ _ Hrest Hx) as [Hv1|(s' & Hs' & Hreach)].
    + destruct (Hf _ _ _ _ E Hv1) as [Hv|Hreach]; [by left|].
      right. exists s. split; [by left|done].
    + right. exists s'. split; [by right|done].
Qed.

Lemma visit_reaches budget :
  ∀ path visited r visited' x,
    visit edges budget path visited r = Ok visited' → x ∈ visited' →
    x ∈ visited ∨ rtc (inherits edges) r x.
Proof.
  induction budget as [|budget IH]; intros path visited r visited' x;
    simpl; [done|].
  destruct (decide (r ∈ path)); [done|].
  destruct (decide (r ∈ visited)).
  { intros [= <-] Hx. by left. }
  destruct (for_each _ _ _) as [v1|e] eqn:E; [|done].
  intros [= <-] Hx. apply elem_of_union in Hx as [Hx|Hx].
  - apply elem_of_singleton in Hx as ->. right. apply rtc_refl.
  - destruct (for_each_reaches _ _ (IH ({[r]} ∪ path)) _ _ _ E Hx)
      as [Hv|(s & Hs & Hreach)]; [by left|].
    right. by apply (rtc_l _ _ s).
Qed.

Lemma resolve_from_reaches roots visited x :
  resolve_from edges roots = Ok visited → x ∈ visited →
  ∃ d, d ∈ roots ∧ rtc (inherits edges) d x.
Proof.
  unfold resolve_from. intros Hok Hx.
  destruct (for_each_reaches _ _ (visit_reaches _ ∅) _ _ _ Hok Hx)
    as [Hempty|Hreach]; [|done].
  by apply not_elem_of_empty in Hempty.
Qed.

(** A cycle of inheriting edges that can be reached from a root makes the
    traversal fail. *)
Lemma resolve_from_cycle roots d c :
  d ∈ roots → rtc (inherits edges) d c → tc (inherits edges) c c →
  resolve_from edges roots = Err RoleCycleDetected.
Proof.
  intros Hd Hreach Hcycle.
  destruct (resolve_from edges roots) as [visited|[]] eqn:E.
  - destruct (resolve_from_explored _ _ E) as ([Hclosed Hacyclic _] & Hroots).
    destruct (Hacyclic c); [|done].
    eapply closed_reach; [exact Hclosed| |exact Hreach]. by apply Hroots.
  - done.
  - by destruct (resolve_from_within_budget edges roots).
Qed.
End invariant.

Example resolve_diamond :
  resolve [holds 1 100 1]
          [edge 1 1 2 true; edge 2 1 3 true; edge 3 2 4 true;
           edge 4 3 4 true] 100 0
  = Ok (list_to_set [1%N; 2%N; 3%N; 4%N]).
Proof. by vm_compute. Qed.

(** C6: [resolve] never uses up its traversal budget, so on every input it
    ends, with a role set or with [RoleCycleDetected]; when a cycle can be
    reached from a role the user holds directly, along the edges the
    traversal follows, it ends with [RoleCycleDetected]; and a role set it
    returns holds exactly the roles reachable that way, so it is never
    partial. *)
Theorem resolve_cycle_safe (assignments : list UserModel.UserRole)
    (edges : list RoleHierarchy) (userId : uuid) (asOf : datetime) :
  resolve assignments edges userId asOf ≠ Err TraversalBudgetExceeded ∧
  (∀ d c, d ∈ direct_roles assignments userId asOf →
          rtc (inherits edges) d c → tc (inherits edges) c c →
          resolve assignments edges userId asOf = Err RoleCycleDetected) ∧
  (∀ roles r, resolve assignments edges userId asOf = Ok roles →
              (r ∈ roles ↔
               ∃ d, d ∈ direct_roles assignments userId asOf ∧
                    rtc (inherits edges) d r)).
Proof.
  unfold resolve. split; [apply resolve_from_within_budget|]. split.
  - intros d c. apply resolve_from_cycle.
  - intros roles r Hok. split.
    + by apply resolve_from_reaches.
    + intros (d & Hd & Hreach).
      destruct (resolve_from_explored _ _ _ Hok) as ([Hclosed _ _] & Hroots).
      eapply closed_reach; [exact Hclosed| |exact Hreach]. by apply Hroots.
Qed.

Lemma resolve_cycle_safe_witness :
  1%N ∈ direct_roles [holds 1 100 1] 100 0 ∧
  rtc (inherits inheriting_cycle) 1%N 2%N ∧
  tc (inherits inheriting_cycle) 2%N 2%N ∧
  resolve [holds 1 100 1] inheriting_cycle 100 0 = Err RoleCycleDetected.
Proof.
  assert (inherits inheriting_cycle 1%N 2%N) as H12 by (by left).
  assert (inherits inheriting_cycle 2%N 3%N) as H23 by (by left).
  assert (inherits inheriting_cycle 3%N 2%N) as H32 by (by left).
  assert (1%N ∈ direct_roles [holds 1 100 1] 100 0) as Hd by (by left).
  pose proof (rtc_once _ _ H12) as Hreach.
  pose proof (tc_l _ _ _ _ H23 (tc_once _ _ _ H32)) as Hcycle.
  split; [exact Hd|]. split; [exact Hreach|]. split; [exact Hcycle|].
  exact (proj1 (proj2 (resolve_cycle_safe [holds 1 100 1] inheriting_cycle
                                          100%N 0%Z))
               1%N 2%N Hd Hreach Hcycle).
Defined.

End ResolverFacts.

(** ** Theorems about the permission aggregator *)

Module AggregatorFacts.
Import RoleModel Conditions Aggregator.

Lemma collect_reads_permissions gs :
  ∀ acc s s',
    permissions s = permissions s' →
    (collect gs acc s).1 = (collect gs acc s').1 ∧ (collect gs acc s).2 = s.
Proof.
  induction gs as [|g gs IH]; intros acc s s' Hperm; [done|].
  simpl. unfold mbind, query_bind, get_permission. rewrite Hperm.
  by apply IH.
Qed.

Lemma expired_grant_does_not_apply roleSet ctx g e :
  expires_at g = Some e → (e < timestamp ctx)%Z →
  grant_applies roleSet ctx g = false.
Proof.
  intros He Hpast. unfold grant_applies, not_expired. rewrite He.
  rewrite (bool_decide_eq_false_2 (timestamp ctx < e)%Z) by lia.
  by rewrite andb_false_r.
Qed.

Example aggregate_before_expiry :
  (aggregate {[10%N]} (at_time 499) analyst_snapshot).1
  = <["report:read:own" := report_read_own]>
      (<["report:export" := report_export]> ∅).
Proof. by vm_compute. Qed.

Example aggregate_after_expiry :
  (aggregate {[10%N]} (at_time 501) analyst_snapshot).1
  = <["report:read:own" := report_read_own]> ∅.
Proof. by vm_compute. Qed.

(** C5: a grant row whose [expires_at] lies strictly before the evaluation
    instant contributes nothing to [aggregate], whatever its active flag:
    the output is the one computed without the row.  The row is still in the
    table after the call. *)
Theorem expired_grant_excluded (perms : list Permission)
    (before after : list RolePermission) (g : RolePermission)
    (roleSet : gset uuid) (ctx : context) (e : datetime) :
  expires_at g = Some e → (e < timestamp ctx)%Z →
  let snap := {| permissions := perms;
                 role_permissions := before ++ g :: after |} in
  let without := {| permissions := perms;
                    role_permissions := before ++ after |} in
  (aggregate roleSet ctx snap).1 = (aggregate roleSet ctx without).1 ∧
  (aggregate roleSet ctx snap).2 = snap ∧
  g ∈ role_permissions (aggregate roleSet ctx snap).2.
Proof.
  intros He Hpast snap without.
  pose proof (expired_grant_does_not_apply roleSet ctx g e He Hpast) as Hg.
  unfold aggregate, mbind, query_bind, list_grants. simpl.
  rewrite !filter_app, filter_cons_False by congruence.
  rewrite <- filter_app.
  destruct (collect_reads_permissions
              (filter (λ g0, grant_applies roleSet ctx g0 = true)
                      (before ++ after)%list) ∅ snap without eq_refl)
    as [Hout Hstate].
  split; [done|]. rewrite Hstate. split; [done|].
  simpl. apply elem_of_app. right. by left.
Qed.

Lemma expired_grant_excluded_witness :
  (500 < timestamp (at_time 501))%Z ∧
  (aggregate {[10%N]} (at_time 501) analyst_snapshot).1
  = (aggregate {[10%N]} (at_time 501)
       {| permissions := [report_read_own; report_export];
          role_permissions := [grant_until 1 10 20 None] |}).1.
Proof.
  split; [simpl; lia|].
  apply (expired_grant_excluded [report_read_own; report_export]
           [grant_until 1 10 20 None] [] (grant_until 2 10 21 (Some 500%Z))
           {[10%N]} (at_time 501) 500%Z).
  - reflexivity.
  - simpl; lia.
Defined.

End AggregatorFacts.

(** ** Theorems about the access request workflow *)

Module WorkflowFacts.
Import PolicyModel Workflow.

Example first_approves_second_rejects :
  state_of (after [(10%Z, Approve 201); (20%Z, Reject 202 "no need")]
                  two_step_request) = Rejected.
Proof. reflexivity. Qed.

Example both_approve_then_implement :
  state_of (after [(10%Z, Approve 201); (20%Z, Approve 202);
                   (30%Z, Implement 300)] two_step_request) = Implemented.
Proof. reflexivity. Qed.

Example approval_out_of_turn :
  apply_operation 10 (Approve 202) two_step_request
  = (two_step_request, Some WorkflowInvalidTransition).
Proof. reflexivity. Qed.

(** C4: every operation applied to a request in a terminal state (rejected,
    implemented, expired or revoked) fails with [WorkflowInvalidTransition]
    and leaves the request as it was; and an operation that succeeds on a
    consistent request either records an approval step of a pending request
    without changing its state or performs one of the five valid
    transitions, and the request stays consistent. *)
Theorem terminal_states_are_final (now : datetime) (op : operation)
    (r : AccessRequest) :
  terminal (state_of r) = true →
  apply_operation now op r = (r, Some WorkflowInvalidTransition) ∧
  (∀ now' op' r0 r',
     consistent r0 → transition now' op' r0 = Updated r' →
     consistent r' ∧
     ((state_of r0 = Pending ∧ state_of r' = Pending ∧
       ∃ a, op' = Approve a) ∨
      valid_transition (state_of r0) (state_of r') = true)).
Proof.
  intros Hterm. split.
  - unfold apply_operation, transition.
    destruct (state_of r); try discriminate; by destruct op.
  - clear. intros now op r r' Hcons. unfold transition, state_of.
    destruct (status r) eqn:Hst; [|destruct (implemented r) eqn:Himpl|..];
      destruct op as [a|a reason|i| |]; try discriminate;
      repeat case_bool_decide; try discriminate.
    + destruct Hcons as [Hcons|Hcons]; [congruence|].
      intros [= <-]. unfold consistent. simpl. rewrite Hcons.
      destruct (next_approver _); simpl.
      * split; [by right|]. left.
        split; [done|]. split; [done|]. by exists a.
      * split; [by right|]. by right.
    + intros [= <-]. split; [|by right].
      destruct Hcons as [Hcons|Hcons]; [congruence|by right].
    + destruct (overdue now r); [|discriminate]. intros [= <-].
      split; [|by right].
      destruct Hcons as [Hcons|Hcons]; [congruence|by right].
    + intros [= <-]. split; [by left|].
      right. simpl. by rewrite Hst.
    + intros [= <-]. split; [by right|]. by right.
Qed.

Lemma terminal_states_are_final_witness :
  terminal (state_of rejected_request) = true ∧
  apply_operation 30 (Approve 202) rejected_request
  = (rejected_request, Some WorkflowInvalidTransition).
Proof.
  split; [reflexivity|].
  apply (terminal_states_are_final 30%Z (Approve 202) rejected_request).
  reflexivity.
Defined.

End WorkflowFacts.

(** ** Theorems about the settings *)

Module ConfigFacts.
Import ConfigModel.

(** X1: the three environment properties never hold together, and for
    settings whose environment passes its validator exactly one holds. *)
Theorem environment_flags_exclusive (s : Settings) :
  (is_development s && is_staging s = false) ∧
  (is_development s && is_production s = false) ∧
  (is_staging s && is_production s = false) ∧
  (validate_environment (environment s) = Valid (environment s) →
   is_development s || is_staging s || is_production s = true).
Proof.
  unfold is_development, is_staging, is_production, validate_environment.
  repeat split.
  1-3: repeat case_bool_decide; try done; congruence.
  case_bool_decide as Hin; [done|]. intros _.
  rewrite !elem_of_cons in Hin.
  destruct Hin as [->|[->|[->|Hin]]]; try done.
  by apply elem_of_nil in Hin.
Qed.

Lemma environment_flags_exclusive_witness :
  validate_environment (environment production_settings)
    = Valid (environment production_settings) ∧
  is_development production_settings || is_staging production_settings
    || is_production production_settings = true.
Proof.
  split; [reflexivity|].
  apply (proj2 (proj2 (proj2
           (environment_flags_exclusive production_settings)))).
  reflexivity.
Defined.

End ConfigFacts.

(** ** Theorems about user profiles *)

Module UserProfileFacts.
Import UserProfileModel.

Lemma join_cons_nonempty sep (p : string) (l : list string) :
  l ≠ [] → join sep (p :: l) = p +:+ sep +:+ join sep l.
Proof. by destruct l. Qed.

Lemma string_app_empty (s t : string) : s +:+ t = "" → s = "" ∧ t = "".
Proof. destruct s; [done|discriminate]. Qed.

Lemma join_empty sep (l : list string) :
  Forall (λ p, p ≠ "") l → join sep l = "" → l = [].
Proof.
  destruct l as [|p [|q l]]; [done|..]; simpl.
  - intros Hl ->. by inversion Hl.
  - intros Hl Hj. apply string_app_empty in Hj as [-> _]. by inversion Hl.
Qed.

Lemma present_names_nonempty names :
  Forall (λ p, p ≠ "") (present_names names).
Proof.
  unfold present_names. apply Forall_fmap, Forall_forall.
  intros n Hn. apply list_elem_of_filter in Hn as [Hn _].
  by destruct n as [[|c s]|].
Qed.

Lemma split_on_nonempty sep (s : string) : split_on sep s ≠ [].
Proof.
  induction s as [|c s IH]; [done|]. simpl.
  destruct (Ascii.eqb c sep); [done|]. by destruct (split_on sep s).
Qed.

(** Splitting distributes over a separator. *)
Lemma split_on_separator sep (a b : string) :
  split_on sep (a +:+ String sep b) = (split_on sep a ++ split_on sep b)%list.
Proof.
  induction a as [|c a IH].
  - change ("" +:+ String sep b) with (String sep b).
    simpl. by rewrite Ascii.eqb_refl.
  - change (String c a +:+ String sep b) with (String c (a +:+ String sep b)).
    simpl. rewrite IH. destruct (Ascii.eqb c sep); [done|].
    pose proof (split_on_nonempty sep a) as Ha.
    by destruct (split_on sep a).
Qed.

Lemma split_on_join (l : list string) :
  l ≠ [] → split_on " " (join " " l) = concat (split_on " " <$> l).
Proof.
  induction l as [|n [|m l] IH]; [done|..]; intros _.
  - simpl. by rewrite app_nil_r.
  - rewrite join_cons_nonempty by done.
    change (" " +:+ join " " (m :: l)) with (String " " (join " " (m :: l))).
    rewrite split_on_separator, IH by done. done.
Qed.

Lemma split_on_absent sep (s : string) :
  count_char sep s = 0 → split_on sep s = [s].
Proof.
  induction s as [|c s IH]; [done|]. simpl.
  destruct (Ascii.eqb c sep); [done|]. intros H. by rewrite IH.
Qed.

(** X2: the full name of a profile is empty exactly when none of the three
    name columns holds a non-empty string.  Otherwise its pieces between
    spaces are the pieces of the names present, in order: the join adds one
    space between two names and nothing else.  So when no name present has a
    leading, trailing or doubled space the full name has none, whichever
    names are missing; and when no name present holds a space, splitting the
    full name gives the names back. *)
Theorem profile_full_name_spacing (p : UserProfile) :
  let names := present_names [first_name p; middle_name p; last_name p] in
  (full_name p = "" ↔
     truthy (first_name p) = false ∧ truthy (middle_name p) = false ∧
     truthy (last_name p) = false) ∧
  (names ≠ [] →
   split_on " " (full_name p) = concat (split_on " " <$> names)) ∧
  (names ≠ [] → Forall well_spaced names → well_spaced (full_name p)) ∧
  (names ≠ [] → Forall (λ n, count_char " " n = 0) names →
   split_on " " (full_name p) = names).
Proof.
  intros names. split; [|split; [|split]].
  - unfold full_name. split.
    + intros Hempty.
      apply join_empty in Hempty; [|apply present_names_nonempty].
      unfold present_names in Hempty. apply fmap_nil_inv in Hempty.
      destruct (truthy (first_name p)) eqn:E1;
        [by rewrite !filter_cons, E1 in Hempty|].
      destruct (truthy (middle_name p)) eqn:E2;
        [by rewrite !filter_cons, E1, E2 in Hempty|].
      destruct (truthy (last_name p)) eqn:E3;
        [by rewrite !filter_cons, E1, E2, E3 in Hempty|].
      done.
    + intros (E1 & E2 & E3). unfold present_names.
      by rewrite !filter_cons, E1, E2, E3.
  - intros Hnames. unfold full_name. fold names. by apply split_on_join.
  - intros Hnames Hspaced. unfold well_spaced, full_name. fold names.
    rewrite split_on_join by done.
    induction Hspaced as [|n l Hn Hl IH]; [done|].
    rewrite fmap_cons. simpl. rewrite elem_of_app. intros [Hin|Hin]; [done|].
    destruct l as [|m l]; [by apply elem_of_nil in Hin|].
    by apply IH.
  - intros Hnames Hfree. unfold full_name. fold names.
    rewrite split_on_join by done. clear Hnames.
    induction Hfree as [|n l Hn Hl IH]; [done|].
    rewrite fmap_cons. simpl. rewrite split_on_absent by done.
    simpl. by rewrite IH.
Qed.

Lemma profile_full_name_spacing_witness :
  present_names [first_name (admin_profile 1); middle_name (admin_profile 1);
                 last_name (admin_profile 1)] ≠ [] ∧
  split_on " " (full_name (admin_profile 1)) = ["System"; "Administrator"].
Proof.
  split; [done|].
  apply (proj2 (proj2 (proj2 (profile_full_name_spacing (admin_profile 1))))).
  - done.
  - repeat constructor.
Defined.

Example admin_full_name :
  full_name (admin_profile 1) = "System Administrator".
Proof. reflexivity. Qed.

End UserProfileFacts.

(** ** Theorems about sessions over time *)

Module SessionTimeFacts.
Import SessionModel.

(** X3: for one session, expiry is permanent and activity is not regained:
    a session that is expired at an instant is expired at every later
    instant, and a session that is active at an instant was active at every
    earlier one. *)
Theorem session_status_over_time (s : UserSession) (t t' : datetime) :
  (t ≤ t')%Z →
  (is_expired s t = Returns true → is_expired s t' = Returns true) ∧
  (is_active s t' = Returns true → is_active s t = Returns true).
Proof.
  intros Hle.
  unfold is_expired, is_active, datetime_gt, datetime_le, utcnow.
  destruct (expires_at s) as [e|e]; [|by case_bool_decide].
  split.
  - repeat case_bool_decide; try done; lia.
  - repeat case_bool_decide; try done; lia.
Qed.

Lemma session_status_over_time_witness :
  (5 ≤ 10)%Z ∧ is_active (fresh_session 0) 10 = Returns true ∧
  is_active (fresh_session 0) 5 = Returns true.
Proof.
  assert (5 ≤ 10)%Z as Hle by lia.
  split; [exact Hle|]. split; [reflexivity|].
  apply (proj2 (session_status_over_time (fresh_session 0) 5 10 Hle)).
  reflexivity.
Defined.

(** X4: [is_expired] is not the negation of [is_active].  For a session
    whose expiry is a naive object both properties return, and they disagree
    exactly for sessions that are not yet expired but terminated, revoked or
    marked with a termination time.  For a session whose expiry is an aware
    object, as the column gives it when the row is loaded, [is_expired]
    raises [TypeError] whatever the status, and [is_active] raises it when
    the status is [ACTIVE] and returns false otherwise. *)
Theorem active_is_not_expired_iff (s : UserSession) (now : datetime) :
  match expires_at s with
  | Naive _ =>
      ∃ a x, is_active s now = Returns a ∧ is_expired s now = Returns x ∧
             (a = negb x ↔
              x = true ∨ (status s = ACTIVE ∧ terminated_at s = None))
  | Aware _ =>
      is_expired s now = TypeError ∧
      is_active s now
      = if bool_decide (status s = ACTIVE) then TypeError else Returns false
  end.
Proof.
  unfold is_active, is_expired, datetime_gt, datetime_le, utcnow.
  destruct (expires_at s) as [e|e]; [|by case_bool_decide].
  destruct (bool_decide (status s = ACTIVE)) eqn:E3;
    destruct (bool_decide (e > now)%Z) eqn:E5;
    destruct (bool_decide (e ≤ now)%Z) eqn:E1;
    destruct (bool_decide (status s = EXPIRED)) eqn:E2;
    destruct (bool_decide (terminated_at s = None)) eqn:E4;
    try apply bool_decide_eq_true in E1; try apply bool_decide_eq_false in E1;
    try apply bool_decide_eq_true in E2; try apply bool_decide_eq_false in E2;
    try apply bool_decide_eq_true in E3; try apply bool_decide_eq_false in E3;
    try apply bool_decide_eq_true in E4; try apply bool_decide_eq_false in E4;
    try apply bool_decide_eq_true in E5; try apply bool_decide_eq_false in E5;
    try lia; try congruence;
    eexists _, _; (split; [reflexivity|]); (split; [reflexivity|]);
    simpl; split; try done; try tauto;
    intros [?|[? ?]]; congruence.
Qed.

Example loaded_session_raises :
  is_active (loaded_session 0) 5 = TypeError ∧
  is_expired (loaded_session 0) 5 = TypeError.
Proof. split; reflexivity. Qed.

(** X5: a session flushed with the column defaults and an expiry computed
    from [datetime.utcnow()] is active exactly until its expiry instant, and
    expired from that instant on; given an aware expiry, both properties
    raise [TypeError] at every instant. *)
Theorem new_session_active_until_expiry (created : datetime) (sid uid : uuid)
    (token : string) (expires : DateTime) (now : datetime) :
  let s := new_UserSession created sid uid token expires
                           None None None None in
  match expires with
  | Naive e =>
      is_active s now = Returns (bool_decide (now < e)%Z) ∧
      is_expired s now = Returns (bool_decide (e ≤ now)%Z)
  | Aware _ =>
      is_active s now = TypeError ∧ is_expired s now = TypeError
  end.
Proof.
  unfold is_active, is_expired, datetime_gt, datetime_le, utcnow; simpl.
  destruct expires as [e|e]; [|done]. split.
  - repeat case_bool_decide; try done; lia.
  - repeat case_bool_decide; try done; lia.
Qed.

End SessionTimeFacts.

(** ** Theorems about MFA tokens over time *)

Module MFATokenFacts.
Import MFAModel MFATokenCreation.

(** X6: validity of a token is never regained by waiting: a token valid at
    an instant was valid at every earlier instant. *)
Theorem token_validity_over_time (t : MFAToken) (now now' : datetime) :
  (now ≤ now')%Z →
  is_valid t now' = Returns true → is_valid t now = Returns true.
Proof.
  intros Hle. unfold is_valid, datetime_gt, utcnow.
  case_bool_decide as Hst; [|done].
  destruct (expires_at t) as [e|e]; [|done].
  repeat case_bool_decide; try done; lia.
Qed.

Lemma token_validity_over_time_witness :
  (10 ≤ 1000)%Z ∧ is_valid login_token 10 = Returns true.
Proof.
  split; [lia|].
  apply (token_validity_over_time login_token 10 1000%Z); [lia|reflexivity].
Defined.



End MFATokenFacts.

(** ** Theorems about permission names and the [permissions] table *)

Module PermissionNameFacts.
Import RoleModel PermissionTable.

Lemma colon_free_app (s t : string) :
  colon_free (s +:+ t) ↔ colon_free s ∧ colon_free t.
Proof.
  unfold colon_free. rewrite PermissionFacts.count_char_app. lia.
Qed.

Lemma colon_free_cons (c : Ascii.ascii) (s : string) :
  colon_free (String c s) → c ≠ ":"%char ∧ colon_free s.
Proof.
  unfold colon_free; simpl.
  destruct (Ascii.eqb_spec c ":"); [lia|]. intros H. split; [done|lia].
Qed.

Lemma append_cons (c : Ascii.ascii) (s t : string) :
  String c s +:+ t = String c (s +:+ t).
Proof. reflexivity. Qed.

Lemma append_nil (t : string) : "" +:+ t = t.
Proof. reflexivity. Qed.

(** A string is cut at its first colon in one way only. *)
Lemma first_colon_unique (a b x y : string) :
  colon_free a → colon_free b →
  a +:+ ":" +:+ x = b +:+ ":" +:+ y → a = b ∧ x = y.
Proof.
  revert b. induction a as [|c a IH]; intros [|d b] Ha Hb;
    rewrite ?append_cons, ?append_nil, ?append_cons, ?append_nil.
  - by intros [= ->].
  - intros [= <- _]. by apply colon_free_cons in Hb as [[] _].
  - intros [= -> _]. by apply colon_free_cons in Ha as [[] _].
  - intros [= -> Hrest].
    apply colon_free_cons in Ha as [_ Ha].
    apply colon_free_cons in Hb as [_ Hb].
    destruct (IH b Ha Hb Hrest) as [-> ->]. done.
Qed.

Lemma colon_free_no_colon (a b y : string) :
  colon_free a → a ≠ b +:+ ":" +:+ y.
Proof.
  intros Ha ->. apply colon_free_app in Ha as [_ Ha].
  by apply colon_free_cons in Ha as [[] _].
Qed.

Lemma full_name_unfold (p : Permission) :
  full_name p =
  resource p +:+ ":" +:+
    match effective_scope p with
    | Some s => action p +:+ ":" +:+ s
    | None => action p
    end.
Proof.
  unfold full_name, full_name_parts, effective_scope.
  by destruct (scope p) as [[|c s]|].
Qed.

(** X8: among permissions whose resource and action hold no colon, the full
    name determines resource, action and scope, a NULL scope and an empty
    one counting as the same. *)
Theorem full_name_injective (p q : Permission) :
  colon_free (resource p) → colon_free (action p) →
  colon_free (resource q) → colon_free (action q) →
  full_name p = full_name q →
  resource p = resource q ∧ action p = action q ∧
  effective_scope p = effective_scope q.
Proof.
  intros Hrp Hap Hrq Haq. rewrite !full_name_unfold. intros Heq.
  apply first_colon_unique in Heq as [Hr Heq]; [|done..].
  split; [done|].
  destruct (effective_scope p) as [s|], (effective_scope q) as [s'|].
  - apply first_colon_unique in Heq as [-> ->]; done.
  - symmetry in Heq. by apply colon_free_no_colon in Heq.
  - by apply colon_free_no_colon in Heq.
  - done.
Qed.

Lemma full_name_injective_witness :
  id report_read_empty ≠ id report_read_unscoped ∧
  scope report_read_empty ≠ scope report_read_unscoped ∧
  full_name report_read_empty = full_name report_read_unscoped ∧
  resource report_read_empty = resource report_read_unscoped ∧
  action report_read_empty = action report_read_unscoped ∧
  effective_scope report_read_empty = effective_scope report_read_unscoped.
Proof.
  split; [by vm_compute|]. split; [done|]. split; [reflexivity|].
  apply (full_name_injective report_read_empty report_read_unscoped);
    reflexivity.
Defined.

Lemma ras_conflict_false_cases (p q : Permission) :
  ras_conflict p q = false →
  resource p ≠ resource q ∨ action p ≠ action q ∨
  scope p = None ∨ scope q = None ∨ scope p ≠ scope q.
Proof.
  unfold ras_conflict.
  case_bool_decide; [|by left]. case_bool_decide; [|by right; left].
  destruct (scope p) as [s|]; [|by right; right; left].
  destruct (scope q) as [s'|]; [|by right; right; right; left].
  simpl. case_bool_decide; [done|]. intros _.
  right; right; right; right. congruence.
Qed.

(** X9: in a table that satisfies [uq_permission_ras], two different rows
    with colon-free resource and action and a non-empty scope have different
    full names. *)
Theorem full_name_key_for_scoped (t : table) (i j : nat) (p q : Permission) :
  uq_permission_ras t →
  t !! i = Some p → t !! j = Some q → i ≠ j →
  colon_free (resource p) → colon_free (action p) →
  colon_free (resource q) → colon_free (action q) →
  truthy (scope p) = true → truthy (scope q) = true →
  full_name p ≠ full_name q.
Proof.
  intros Huq Hp Hq Hij Hrp Hap Hrq Haq Hsp Hsq Hname.
  rewrite !full_name_unfold in Hname. unfold effective_scope in Hname.
  rewrite Hsp, Hsq in Hname.
  apply first_colon_unique in Hname as [Hr Hname]; [|done..].
  pose proof (ras_conflict_false_cases p q (Huq i j p q Hp Hq Hij)) as Hrow.
  destruct (scope p) as [s|]; [|done].
  destruct (scope q) as [s'|]; [|done].
  apply first_colon_unique in Hname as [Ha Hs]; [|done..].
  destruct Hrow as [H|[H|[H|[H|H]]]]; try done.
  by subst s'.
Qed.

Lemma full_name_key_for_scoped_witness :
  uq_permission_ras [report_read_team; report_read_own_row] ∧
  full_name report_read_team ≠ full_name report_read_own_row.
Proof.
  assert (uq_permission_ras [report_read_team; report_read_own_row])
    as Huq.
  { intros [|[|i]] [|[|j]] p q Hp Hq Hij; try done;
      simpl in Hp, Hq; injection Hp as <-; injection Hq as <-; reflexivity. }
  split; [exact Huq|].
  apply (full_name_key_for_scoped _ 0 1 _ _ Huq); try reflexivity. lia.
Defined.

(** X10: [uq_permission_ras] does not make the full name unique.  Two rows
    with the same resource and action, different primary keys and names,
    and scopes that are NULL or empty but not both empty are stored side by
    side, and they have the same full name. *)
Theorem unscoped_duplicates_accepted (p q : Permission) :
  id p ≠ id q → name p ≠ name q →
  resource p = resource q → action p = action q →
  truthy (scope p) = false → truthy (scope q) = false →
  scope p = None ∨ scope q = None →
  insert q [p] = Done [q; p] ∧ uq_permission_ras [q; p] ∧
  full_name p = full_name q.
Proof.
  intros Hid Hname Hr Ha Hsp Hsq Hnull.
  assert (ras_conflict q p = false ∧ ras_conflict p q = false) as [Hqp Hpq].
  { unfold ras_conflict.
    destruct Hnull as [H|H]; rewrite H;
      [destruct (scope q)|destruct (scope p)];
      by rewrite !andb_false_r. }
  split; [|split].
  - unfold insert, conflicts; simpl. rewrite Hqp.
    rewrite !bool_decide_eq_false_2 by congruence. done.
  - intros [|[|i]] [|[|j]] p' q' Hp Hq Hij; try done;
      simpl in Hp, Hq; injection Hp as <-; injection Hq as <-; done.
  - rewrite !full_name_unfold. unfold effective_scope.
    by rewrite Hsp, Hsq, Hr, Ha.
Qed.

Lemma unscoped_duplicates_accepted_witness :
  id report_read_empty ≠ id report_read_own_row ∧
  insert (new_Permission 5 "report.read.any" "Read" None "report" "read"
                         None None None) [report_read_empty]
  = Done [new_Permission 5 "report.read.any" "Read" None "report" "read"
                         None None None; report_read_empty].
Proof.
  split; [by vm_compute|].
  apply (unscoped_duplicates_accepted report_read_empty
           (new_Permission 5 "report.read.any" "Read" None "report" "read"
                           None None None));
    try reflexivity; try (by vm_compute). by right.
Defined.

End PermissionNameFacts.

(** ** Theorems about granting again *)

Module RegrantFacts.
Import RoleModel RolePermissionTable.

Lemma unique_key_same_row {A K} (f : A → K) (l : list A) (x y : A) :
  NoDup (f <$> l) → x ∈ l → y ∈ l → f x = f y → x = y.
Proof.
  induction l as [|z l IH]; [by intros _ Hx; apply elem_of_nil in Hx|].
  rewrite fmap_cons, NoDup_cons. intros [Hz Hl] Hx Hy Hf.
  apply elem_of_cons in Hx as [->|Hx]; apply elem_of_cons in Hy as [->|Hy].
  - done.
  - destruct Hz. rewrite Hf. by apply list_elem_of_fmap_2.
  - destruct Hz. rewrite <- Hf. by apply list_elem_of_fmap_2.
  - by apply IH.
Qed.

(** X11: a grant that was removed can be made again.  In every table reached
    from the empty one, after the row of a (role, permission) pair is
    deleted a new row for the same pair with an unused primary key is
    accepted, and it is then the only row of the pair. *)
Theorem regrant_after_delete (sts : list statement) (g g' : RolePermission) :
  g ∈ run sts →
  uq_role_permission g' = uq_role_permission g →
  grant_id g' ∉ grant_id <$> run sts →
  let t := delete (grant_id g) (run sts) in
  insert g' t = Done (g' :: t) ∧
  grant_rows (role_id g') (permission_id g') (g' :: t) = 1.
Proof.
  intros Hg Hkey Hfresh t.
  destruct (RolePermissionTableFacts.constraints_run_from [] sts)
    as [Hids Hkeys]; [split; constructor|].
  fold (run sts) in Hids, Hkeys.
  assert (uq_role_permission g' ∉ uq_role_permission <$> t) as Hfree.
  { intros Hin. apply list_elem_of_fmap in Hin as (h & Hh & Hin).
    apply list_elem_of_filter in Hin as [Hne Hin].
    apply Hne. f_equal.
    apply (unique_key_same_row uq_role_permission (run sts)); [done..|].
    congruence. }
  assert (grant_id g' ∉ grant_id <$> t) as Hfresh'.
  { intros Hin. apply Hfresh.
    apply list_elem_of_fmap in Hin as (h & -> & Hin).
    apply list_elem_of_filter in Hin as [_ Hin].
    by apply list_elem_of_fmap_2. }
  split.
  - unfold insert, conflicts.
    by rewrite !bool_decide_eq_false_2.
  - unfold grant_rows, table in *. rewrite filter_cons_True by done.
    simpl. f_equal.
    destruct (filter _ t) as [|h l] eqn:E; [done|].
    assert (h ∈ filter (λ g0, uq_role_permission g0
                              = (role_id g', permission_id g')) t)
      as Hh by (rewrite E; left).
    apply list_elem_of_filter in Hh as [Hk Hh].
    destruct Hfree. change (uq_role_permission g')
      with (role_id g', permission_id g').
    rewrite <- Hk. by apply list_elem_of_fmap_2.
Qed.

Lemma regrant_after_delete_witness :
  grant 1 10 20 ∈ run [INSERT (grant 1 10 20)] ∧
  insert (grant 2 10 20) (delete 1 (run [INSERT (grant 1 10 20)]))
  = Done [grant 2 10 20].
Proof.
  assert (grant 1 10 20 ∈ run [INSERT (grant 1 10 20)]) as Hin by (by left).
  split; [exact Hin|].
  apply (regrant_after_delete [INSERT (grant 1 10 20)] (grant 1 10 20)
           (grant 2 10 20) Hin); [reflexivity|].
  vm_compute. intros H. apply elem_of_cons in H as [H|H]; [discriminate|].
  by apply elem_of_nil in H.
Defined.

End RegrantFacts.

(** ** Lemmas and tactics about effects *)

Module EffectsFacts.
Import Effects.

Ltac split_outcome :=
  match goal with
  | |- context [outcome ?w ?tr ?c] =>
      let E := fresh "E" in
      destruct (outcome w tr c) as [[?| | |?|?]|] eqn:E; simpl
  end.

(** Closes [x ∉ l] for a list given by its elements. *)
Ltac not_in_list :=
  let H := fresh in
  intros H;
  repeat (apply elem_of_cons in H as [H|H]; [discriminate|]);
  by apply elem_of_nil in H.

(** Closes [x ∈ l] for a list given by its elements. *)
Ltac in_list := solve [repeat first [left | right]].

Lemma all_returned_nil : all_returned [].
Proof. intros c f H. by apply elem_of_nil in H. Qed.

Lemma all_returned_cons (e : event) (tr : list event) :
  all_returned (e :: tr) ↔
  (∀ c f, e = Called c f → f = None) ∧ all_returned tr.
Proof.
  unfold all_returned. split.
  - intros H. split; [intros c f ->; apply (H c); by left|].
    intros c f Hin. apply (H c). by right.
  - intros [He Htr] c f Hin. apply elem_of_cons in Hin as [Hin|Hin].
    + by apply (He c).
    + by apply (Htr c).
Qed.



(** Decides [all_returned] for a trace given by its events. *)
Ltac decide_returned :=
  rewrite ?all_returned_cons;
  first
    [ by repeat split; try apply all_returned_nil; intros ? ? [= <- <-]
    | let H := fresh in
      intros H; decompose [and] H;
      match goal with
      | Hc : ∀ c f, Called ?c0 (Some ?x) = Called c f → f = None |- _ =>
          by specialize (Hc c0 (Some x) eq_refl)
      end ].

End EffectsFacts.

(** ** Theorems about database.py *)

Module DatabaseFacts.
Import ConfigModel Effects DatabaseModel EffectsFacts.

Lemma prefix_app (a rest : string) : String.prefix a (a +:+ rest) = true.
Proof.
  induction a as [|c a IH]; [by destruct rest|].
  simpl. destruct (Ascii.ascii_dec c c); [done|congruence].
Qed.

Lemma replace_from_skip old new (a rest : string) :
  replace_from old new (String.length a) (a +:+ rest)
  = replace_from old new 0 rest.
Proof.
  induction a as [|c a IH]; [done|]. exact IH.
Qed.

Lemma replace_occurrence old new (rest : string) :
  old ≠ "" → replace old new (old +:+ rest) = new +:+ replace old new rest.
Proof.
  destruct old as [|c old]; [done|]. intros _. unfold replace.
  change (String c old +:+ rest) with (String c (old +:+ rest)).
  cbn [replace_from].
  change (String c (old +:+ rest)) with (String c old +:+ rest).
  rewrite prefix_app.
  change (String.length (String c old) - 1) with (String.length old - 0).
  rewrite Nat.sub_0_r. by rewrite replace_from_skip.
Qed.

Lemma replace_absent old new (s : string) :
  occurs old s = false → replace old new s = s.
Proof.
  unfold replace. induction s as [|c s IH]; [done|].
  cbn [occurs replace_from]. intros Hocc.
  apply orb_false_iff in Hocc as [Hpre Hocc].
  rewrite Hpre. by rewrite IH.
Qed.

(** X12: a database URL that starts with the scheme [postgresql://] and does
    not hold it again is handed to the engine with the scheme
    [postgresql+asyncpg://] and the rest unchanged; a URL in which
    [postgresql://] does not occur is handed over as it is. *)
Theorem engine_url_scheme (settings : Settings) (rest : string) :
  (database_url settings = "postgresql://" +:+ rest →
   occurs "postgresql://" rest = false →
   engine_url settings = "postgresql+asyncpg://" +:+ rest) ∧
  (occurs "postgresql://" (database_url settings) = false →
   engine_url settings = database_url settings).
Proof.
  unfold engine_url. split.
  - intros -> Hrest. rewrite replace_occurrence by done.
    by rewrite replace_absent.
  - apply replace_absent.
Qed.

Lemma engine_url_scheme_witness :
  occurs "postgresql://" "elams:pw@db:5432/elams" = false ∧
  engine_url production_settings
  = "postgresql+asyncpg://elams:pw@db:5432/elams".
Proof.
  split; [reflexivity|].
  apply (proj1 (engine_url_scheme production_settings
                                  "elams:pw@db:5432/elams"));
    reflexivity.
Defined.

Lemma created_app (tr tr' : list event) :
  created (tr ++ tr') = (created tr ++ created tr')%list.
Proof. unfold created. apply omap_app. Qed.

Lemma get_redis_returns settings w p c p' :
  get_redis settings w p = (Return c, p') → redis_client p' = Some c.
Proof.
  unfold get_redis, perform.
  destruct (redis_client p) as [c0|] eqn:E.
  - by intros [= <- <-].
  - destruct (outcome w (trace p) _); [done|]. by intros [= <- <-].
Qed.

Lemma get_redis_kept settings w p c :
  redis_client p = Some c → get_redis settings w p = (Return c, p).
Proof. unfold get_redis. by intros ->. Qed.

Lemma close_database_keeps w p c :
  redis_client p = Some c →
  redis_client (close_database w p).2 = Some c ∧
  created (trace (close_database w p).2) = created (trace p).
Proof.
  intros Hc. unfold close_database, mbind, prog_bind, perform.
  destruct (outcome w (trace p) EngineDispose) as [f|] eqn:E1; simpl.
  - split; [done|]. rewrite created_app. simpl. by rewrite app_nil_r.
  - rewrite Hc.
    destruct (outcome w (trace p ++ [Called EngineDispose None]) RedisClose);
      simpl; (split; [done|]);
      rewrite !created_app; simpl; by rewrite !app_nil_r.
Qed.

Lemma run_operations_cons settings w op ops p :
  run_operations settings (op :: ops) w p
  = run_operations settings ops w (run_operation settings op w p).
Proof. reflexivity. Qed.

Lemma run_operations_keep settings w ops :
  ∀ p c, redis_client p = Some c →
    redis_client (run_operations settings ops w p) = Some c ∧
    created (trace (run_operations settings ops w p)) = created (trace p).
Proof.
  induction ops as [|op ops IH]; intros p c Hc; [done|].
  rewrite run_operations_cons. destruct op; simpl.
  - rewrite (get_redis_kept _ _ _ _ Hc). simpl. by apply IH.
  - destruct (close_database_keeps w p c Hc) as [Hc' Hcr].
    destruct (IH _ _ Hc') as [H1 H2]. split; [done|]. by rewrite H2.
Qed.

(** X13: the cache client is a singleton for the life of the process.  Once
    [get_redis] has returned a client, every later [get_redis] returns that
    same client and creates none, however calls of [get_redis] and
    [close_database] are interleaved before it: also after
    [close_database] has closed the client. *)
Theorem get_redis_singleton (settings : Settings) (w : world)
    (p p1 : process) (c : nat) (ops : list db_operation) :
  get_redis settings w p = (Return c, p1) →
  let p2 := run_operations settings ops w p1 in
  get_redis settings w p2 = (Return c, p2) ∧
  created (trace p2) = created (trace p1).
Proof.
  intros Hget p2. apply get_redis_returns in Hget.
  destruct (run_operations_keep settings w ops p1 c Hget) as [Hc Hcr].
  split; [by apply get_redis_kept|done].
Qed.

Lemma get_redis_singleton_witness :
  get_redis production_settings calm started
  = (Return 0, set_redis_client 0
       (record_event (Called (RedisFromUrl "redis://cache:6379/0") None)
                     started)) ∧
  (get_redis production_settings calm
     (run_operations production_settings [CloseDatabase; GetRedis] calm
        (set_redis_client 0
           (record_event (Called (RedisFromUrl "redis://cache:6379/0") None)
                         started)))).1 = Return 0.
Proof.
  assert (get_redis production_settings calm started
          = (Return 0, set_redis_client 0
               (record_event
                  (Called (RedisFromUrl "redis://cache:6379/0") None)
                  started))) as Hget by reflexivity.
  split; [exact Hget|].
  pose proof (get_redis_singleton production_settings calm started _ 0
                [CloseDatabase; GetRedis] Hget) as [H _].
  exact (f_equal fst H).
Defined.

Ltac effects_unfold :=
  unfold health_check, try_except, with_session, try_finally, manager_ping,
    mbind, prog_bind, mret, prog_ret, perform, record_event, raise_fault;
  simpl.

Lemma status_keys (a b c d : string) :
  dom (<["redis" := a]> (<["database" := b]>
         (<["redis" := c]> (<["database" := d]> (∅ : gmap string string)))))
  = ({["database"; "redis"]} : gset string).
Proof. rewrite !dom_insert_L, dom_empty_L. set_solver. Qed.

(** The check ends with a dictionary or with an exception that is not
    derived from [Exception]. *)
Lemma health_check_outcome (w : world) (p : process) :
  match (health_check w p).1 with
  | Return _ => True
  | Raise r => ∀ msg, r ≠ Exception_ msg
  end.
Proof.
  effects_unfold.
  repeat split_outcome;
    destruct (manager_redis p); simpl; repeat split_outcome; done.
Qed.

(** X14: [health_check] never raises an exception derived from [Exception]:
    both [except] clauses turn it into a report.  What it raises is what
    the last of its calls that raised did raise, an exception outside
    [Exception] such as [KeyboardInterrupt] or [asyncio.CancelledError].
    The dictionary it returns has exactly the keys [database] and [redis],
    no value is left [unknown], and without a connected client the cache is
    reported unhealthy without any ping. *)
Theorem health_check_answers (w : world) (p : process) :
  match health_check w p with
  | (Return status, p') =>
      dom status = ({["database"; "redis"]} : gset string) ∧
      status !! "database" ≠ Some "unknown" ∧
      status !! "redis" ≠ Some "unknown" ∧
      (manager_redis p = None →
       status !! "redis"
         = Some "unhealthy: 'NoneType' object has no attribute 'ping'" ∧
       RedisPing ∉ calls (since (length (trace p)) p'))
  | (Raise r, p') =>
      (∀ msg, r ≠ Exception_ msg) ∧
      ∃ c f, last_raised (since (length (trace p)) p') = Some (c, f) ∧
             r = raise_fault f
  end.
Proof.
  effects_unfold.
  repeat split_outcome;
    destruct (manager_redis p) eqn:Em; simpl;
    repeat split_outcome;
    try done;
    try (split; [done|]; unfold since; simpl;
         rewrite <- ?app_assoc, drop_app_length;
         by eexists _, _);
    (split; [apply status_keys|]);
    (split; [by simplify_map_eq|]);
    (split; [by simplify_map_eq|]);
    try done;
    intros _; (split; [by simplify_map_eq|]);
    unfold since; simpl;
    rewrite <- ?app_assoc, drop_app_length; simpl;
    not_in_list.
Qed.

Lemma health_check_answers_witness :
  manager_redis started = None ∧
  ∀ status p',
    health_check calm started = (Return status, p') →
    status !! "redis"
    = Some "unhealthy: 'NoneType' object has no attribute 'ping'".
Proof.
  split; [reflexivity|]. intros status p' Hrun.
  pose proof (health_check_answers calm started) as H.
  rewrite Hrun in H. destruct H as (_ & _ & _ & H).
  apply H. reflexivity.
Defined.

(** X15: [health_check] reports both stores healthy exactly when the manager
    holds a client and every call the check made returned. *)
Theorem health_check_healthy_iff (w : world) (p : process) :
  match health_check w p with
  | (Return status, p') =>
      (status !! "database" = Some "healthy" ∧
       status !! "redis" = Some "healthy") ↔
      (is_Some (manager_redis p) ∧
       all_returned (since (length (trace p)) p'))
  | (Raise _, _) => True
  end.
Proof.
  effects_unfold.
  repeat split_outcome;
    destruct (manager_redis p) eqn:Em; simpl;
    repeat split_outcome;
    try done;
    unfold since; simpl;
    rewrite <- ?app_assoc, drop_app_length; simpl;
    (split;
     [ intros [H1 H2]; simplify_map_eq
     | intros [[c Hc] Hret]; try discriminate;
       try (exfalso; revert Hret; decide_returned) ]);
    try done;
    split; [by eexists|decide_returned].
Qed.

(** X16: [connect] registers the client before it pings.  When it returns,
    the global and the manager hold the same client.  When it raises an
    exception derived from [Exception], either no client could be created
    and nothing is registered anew, or the ping failed: then the text is
    that of the ping behind "Failed to connect to Redis: " and the client
    stays registered in both places. *)
Theorem connect_registers_client (settings : Settings) (w : world)
    (p : process) :
  match connect settings w p with
  | (Return _, p') =>
      ∃ c, redis_client p' = Some c ∧ manager_redis p' = Some c
  | (Raise (Exception_ msg), p') =>
      (redis_client p = None ∧ redis_client p' = None ∧
       manager_redis p' = manager_redis p) ∨
      (∃ c e, msg = "Failed to connect to Redis: " +:+ e ∧
              redis_client p' = Some c ∧ manager_redis p' = Some c)
  | (Raise _, _) => True
  end.
Proof.
  unfold connect, get_redis, try_except, raise, mbind, prog_bind, perform,
    record_event, raise_fault, set_manager_redis, set_redis_client.
  destruct (redis_client p) as [c|] eqn:Ec; simpl.
  - split_outcome; try done.
    + right. by eexists _, _.
    + by exists c.
  - split_outcome; try done; [by left|].
    split_outcome; try done.
    + right. by eexists _, _.
    + by eexists.
Qed.

End DatabaseFacts.

(** ** Theorems about main.py *)

Module MainFacts.
Import ConfigModel Effects DatabaseModel MainModel EffectsFacts.

Lemma user_middleware_setup (settings : Settings) (app : FastAPI) :
  user_middleware (setup_middleware settings app)
  = (user_middleware app
     ++ [RequestIDMiddleware; SecurityHeadersMiddleware;
         CORSMiddleware (cors_origins settings) (cors_credentials settings)
                        (cors_methods settings) (cors_headers settings)]
     ++ (if is_production settings
         then [TrustedHostMiddleware ["yourdomain.com"; "*.yourdomain.com"]]
         else [])
     ++ [GZipMiddleware 1000; RateLimitMiddleware; AuditMiddleware])%list.
Proof.
  unfold setup_middleware, is_production, is_development.
  case_bool_decide as Hprod; simpl.
  - rewrite bool_decide_eq_false_2 by (rewrite Hprod; discriminate).
    simpl. by rewrite <- !app_assoc.
  - by rewrite <- !app_assoc.
Qed.

(** X17: [setup_middleware] registers the trusted-host middleware exactly in
    production, and then always with the two fixed domain patterns: the
    wildcard list of its development branch is never used.  The request-id
    middleware is registered first and the audit middleware last. *)
Theorem trusted_hosts_never_wildcard (settings : Settings) (app : FastAPI)
    (hosts : list string) :
  let added :=
    drop (length (user_middleware app))
         (user_middleware (setup_middleware settings app)) in
  (TrustedHostMiddleware hosts ∈ added ↔
   is_production settings = true ∧
   hosts = ["yourdomain.com"; "*.yourdomain.com"]) ∧
  head added = Some RequestIDMiddleware ∧
  last added = Some AuditMiddleware ∧
  length added = if is_production settings then 7 else 6.
Proof.
  intros added. unfold added. rewrite user_middleware_setup.
  rewrite drop_app_length.
  destruct (is_production settings); simpl.
  - split; [split|done].
    + intros H. split; [done|].
      repeat (apply elem_of_cons in H as [H|H]; [try discriminate|]).
      * by injection H as ->.
      * by apply elem_of_nil in H.
    + intros [_ ->]. do 3 right. left.
  - split; [split|done].
    + intros H. exfalso.
      repeat (apply elem_of_cons in H as [H|H]; [discriminate|]).
      by apply elem_of_nil in H.
    + by intros [? _].
Qed.

(** X18: outside development the application serves no documentation: the
    three documentation URLs are all absent, and in development all three
    are set.  [/health] is always routed, after the [/api] router, and
    [/metrics] exactly when Prometheus is enabled. *)
Theorem create_app_exposure (settings : Settings) :
  let app := create_app settings in
  (is_development settings = false →
   docs_url app = None ∧ redoc_url app = None ∧ openapi_url app = None) ∧
  (is_development settings = true →
   docs_url app = Some (api_docs_url settings) ∧
   redoc_url app = Some (api_redoc_url settings) ∧
   openapi_url app = Some "/openapi.json") ∧
  routes app
  = ([IncludeRouter "/api"; Get "/health"]
     ++ if prometheus_enabled settings then [Get "/metrics"] else [])%list ∧
  exception_handlers app
  = [ELAMSException; StarletteHTTPException; RequestValidationError;
     AnyException].
Proof.
  unfold create_app.
  destruct (prometheus_enabled settings), (is_development settings) eqn:E;
    simpl; unfold setup_middleware; rewrite ?E;
    destruct (is_production settings); simpl; repeat split; done.
Qed.

Lemma create_app_exposure_witness :
  is_development production_settings = false ∧
  docs_url (create_app production_settings) = None.
Proof.
  split; [reflexivity|].
  apply (proj1 (create_app_exposure production_settings)). reflexivity.
Defined.

(** X19: outside development no error response carries details.  The handlers
    for application, validation and unexpected errors send [null] in
    [error.details], with the status of the exception, 422 and 500; in
    development they send the details, the validation errors and the text
    of the exception.  The handler for HTTP errors never has the key. *)
Theorem error_details_only_in_development (settings : Settings) (w : world)
    (p : process) (exc : elams_exception) (errors : json)
    (shown text detail : string) (code : Z) :
  let shown_if_dev (x : json) :=
    if is_development settings then x else JNull in
  let r1 := (elams_exception_handler settings exc w p).1 in
  let r2 := (validation_exception_handler settings errors shown w p).1 in
  let r3 := (general_exception_handler settings text w p).1 in
  let r4 := (http_exception_handler code detail w p).1 in
  (∃ a, r1 = Return a ∧ status_code a = exc_status_code exc ∧
        error_details a = Some (shown_if_dev (details exc))) ∧
  (∃ a, r2 = Return a ∧ status_code a = 422%Z ∧
        error_details a = Some (shown_if_dev errors)) ∧
  (∃ a, r3 = Return a ∧ status_code a = 500%Z ∧
        error_details a = Some (shown_if_dev (JString text))) ∧
  (∃ a, r4 = Return a ∧ status_code a = code ∧ error_details a = None).
Proof.
  unfold elams_exception_handler, validation_exception_handler,
    general_exception_handler, http_exception_handler.
  destruct (is_development settings); simpl;
    repeat split; by eexists.
Qed.

(** X20: the [/health] endpoint never answers 503 and never fails with an
    exception derived from [Exception].  Whatever the state of the stores,
    when it answers it returns the dictionary whose [status] is [healthy],
    with the state of the stores only under [database].  It gives no answer
    only when [health_check] itself raised, an exception outside [Exception]
    such as [asyncio.CancelledError], which the endpoint lets through. *)
Theorem health_endpoint_never_unhealthy (settings : Settings) (w : world)
    (p : process) :
  match (health_endpoint settings w p).1 with
  | Return (Dict body) =>
      json_field "status" body = Some (JString "healthy") ∧
      ∃ status, (health_check w p).1 = Return status ∧
                json_field "database" body = Some (status_json status)
  | Return (Response _) => False
  | Raise r =>
      (∀ msg, r ≠ Exception_ msg) ∧ (health_check w p).1 = Raise r
  end.
Proof.
  unfold health_endpoint, try_except, mbind, prog_bind.
  pose proof (DatabaseFacts.health_check_outcome w p) as H.
  destruct (health_check w p) as [[status|r] p']; simpl in *.
  - split; [done|]. by exists status.
  - destruct r as [msg| | |code|class]; try done.
    by destruct (H msg).
Qed.

End MainFacts.

(** ** Theorems about manage.py *)

Module ManageFacts.
Import ConfigModel Effects DatabaseModel ManageModel EffectsFacts.

Lemma dispatch_cases (command : string) :
  (command = "create-tables" ∧ dispatch command = create_tables) ∨
  (command = "drop-tables" ∧ dispatch command = drop_tables) ∨
  (command = "reset-db" ∧ dispatch command = reset_database) ∨
  (command = "create-admin" ∧ dispatch command = create_admin) ∨
  (command = "migrate" ∧ dispatch command = run_migrations) ∨
  (command = "help" ∧ dispatch command = print_help) ∨
  ((command ∉ commands) ∧ dispatch command = unknown_command command).
Proof.
  unfold dispatch, unknown_command, commands.
  repeat (case_bool_decide;
    [subst; repeat first [left; split; reflexivity | right]|]).
  do 6 right. split; [|done].
  intros Hin. repeat (apply elem_of_cons in Hin as [Hin|Hin]; [done|]).
  by apply elem_of_nil in Hin.
Qed.

Ltac manage_unfold :=
  unfold run, main, unknown_command, reset_database, run_migrations,
    create_admin, create_admin_in_session, create_tables, drop_tables,
    print_help, init_database, close_database, with_session, try_finally,
    try_except, try_except_interrupt, sys_exit, raise, print, add, lookup,
    perform, mbind, prog_bind, mret, prog_ret, record_event, raise_fault,
    started;
  simpl.

(** Splits on what the world answers at the next point where the run
    depends on it. *)
Ltac ask_world :=
  match goal with
  | |- context [outcome ?w ?tr ?c] =>
      destruct (outcome w tr c) as [[?| | |?|?]|]; simpl
  | |- context [found ?w ?tr ?c] =>
      destruct (found w tr c); simpl
  end.

Ltac in_commands := unfold commands; in_list.

Ltac run_leaf :=
  let H := fresh in
  intros H; injection H as <- <-; split; vm_compute; reflexivity.

(** Every run of [main] with a command passes the checks. *)
Lemma main_checked (settings : Settings) (script command : string)
    (rest : list string) (w : world) (r : result unit) (p : process) :
  run settings (script :: command :: rest) w = (r, p) →
  main_check (bool_decide (command = "reset-db"))
             (bool_decide (command = "create-admin")) r (trace p) = true ∧
  r = main_outcome (bool_decide (command ∈ commands)) (trace p).
Proof.
  unfold run, main.
  destruct (dispatch_cases command)
    as [[H Hd]|[[H Hd]|[[H Hd]|[[H Hd]|[[H Hd]|[[H Hd]|[H Hd]]]]]]];
    rewrite Hd; clear Hd.
  1-6: subst command; manage_unfold; repeat ask_world; run_leaf.
  rewrite (bool_decide_eq_false_2 (command ∈ commands)) by done.
  rewrite (bool_decide_eq_false_2 (command = "reset-db"))
    by (intros ->; apply H; in_commands).
  rewrite (bool_decide_eq_false_2 (command = "create-admin"))
    by (intros ->; apply H; in_commands).
  manage_unfold; repeat ask_world; run_leaf.
Qed.

Lemma run_pair (settings : Settings) (argv : list string) (w : world) :
  run settings argv w
  = ((run settings argv w).1, (run settings argv w).2).
Proof. by destruct (run settings argv w). Qed.

(** The checks of a run, one by one. *)
Lemma main_checks (settings : Settings) (script command : string)
    (rest : list string) (w : world) :
  let r := (run settings (script :: command :: rest) w).1 in
  let tr := trace (run settings (script :: command :: rest) w).2 in
  disposal_check tr = true ∧
  r = main_outcome (bool_decide (command ∈ commands)) tr ∧
  (command = "reset-db" → reset_check tr = true) ∧
  (command = "create-admin" → admin_check r tr = true).
Proof.
  intros r tr.
  destruct (main_checked _ _ _ _ _ _ _
              (run_pair settings (script :: command :: rest) w))
    as [H Hexit].
  fold r tr in H, Hexit. unfold main_check in H.
  apply andb_prop in H as [H Hadmin].
  apply andb_prop in H as [Hdispose Hreset].
  repeat split; [done|done|..].
  - intros ->. by rewrite bool_decide_eq_true_2 in Hreset.
  - intros ->. by rewrite bool_decide_eq_true_2 in Hadmin.
Qed.





(** X24: [create-admin] commits nothing when the admin user already exists.
    If the lookup finds the user no commit is attempted and no user or
    profile is added, so an organization or role added just before is
    discarded with the session; a commit is attempted only after the lookup
    found no user, with the user and the profile added, and with the
    organization and the role added exactly when their lookups found
    none. *)
Theorem create_admin_commits_only_new (settings : Settings)
    (script : string) (rest : list string) (w : world) :
  let tr := trace (run settings (script :: "create-admin" :: rest) w).2 in
  (Found SelectAdminUser true ∈ tr →
   (SessionCommit ∉ calls tr) ∧ (Added NewUser ∉ tr) ∧
   (Added NewProfile ∉ tr)) ∧
  (SessionCommit ∈ calls tr →
   Found SelectAdminUser false ∈ tr ∧
   Added NewUser ∈ tr ∧ Added NewProfile ∈ tr ∧
   (Added NewOrganization ∈ tr ↔ Found GetOrganization false ∈ tr) ∧
   (Added NewRole ∈ tr ↔ Found GetRole false ∈ tr)).
Proof.
  intros tr.
  destruct (main_checks settings script "create-admin" rest w)
    as (_ & _ & _ & H).
  specialize (H eq_refl). fold tr in H. unfold admin_check in H.
  apply andb_prop in H as [Hexists Hcommit].
  split.
  - intros Hfound. rewrite bool_decide_eq_true_2 in Hexists by done.
    apply andb_prop in Hexists as [Hexists _].
    apply andb_prop in Hexists as [Hexists H3].
    apply andb_prop in Hexists as [H1 H2].
    apply bool_decide_eq_true_1 in H1, H2, H3. done.
  - intros Hin. rewrite bool_decide_eq_true_2 in Hcommit by done.
    apply andb_prop in Hcommit as [Hcommit H5].
    apply andb_prop in Hcommit as [Hcommit H4].
    apply andb_prop in Hcommit as [Hcommit H3].
    apply andb_prop in Hcommit as [H1 H2].
    apply bool_decide_eq_true_1 in H1, H2, H3.
    apply Bool.eqb_prop in H4, H5.
    repeat split; try done.
    + rewrite <- (bool_decide_eq_true (Added NewOrganization ∈ _)), H4.
      apply bool_decide_eq_true.
    + rewrite <- (bool_decide_eq_true (Added NewOrganization ∈ _)), H4.
      apply bool_decide_eq_true.
    + rewrite <- (bool_decide_eq_true (Added NewRole ∈ _)), H5.
      apply bool_decide_eq_true.
    + rewrite <- (bool_decide_eq_true (Added NewRole ∈ _)), H5.
      apply bool_decide_eq_true.
Qed.

Lemma create_admin_commits_only_new_witness :
  Found SelectAdminUser true
    ∈ trace (run production_settings ["manage.py"; "create-admin"]
                 admin_present).2 ∧
  SessionCommit
    ∉ calls (trace (run production_settings ["manage.py"; "create-admin"]
                        admin_present).2).
Proof.
  assert (Found SelectAdminUser true
            ∈ trace (run production_settings ["manage.py"; "create-admin"]
                         admin_present).2) as Hfound.
  { vm_compute. in_list. }
  split; [exact Hfound|].
  apply (proj1 (create_admin_commits_only_new production_settings
                  "manage.py" [] admin_present) Hfound).
Defined.

End ManageFacts.
